(** * Redacting log formatter and password helpers (0x00-personal_data)

    A shallow embedding of [filtered_logger.py] and [encrypt_password.py].

    Python strings are lists of characters ([list ascii], code points
    0..255); byte strings are lists of 8-bit values, also [list ascii].
    The calls into the [re] module are modelled by a matcher for the one
    regular expression the program builds, [{field}=[^;]*], and the
    left-to-right, non-overlapping substitution loop of [re.sub].  The calls
    into [bcrypt] and into [logging.Formatter] are parameters of a section. *)

From Equations Require Import Equations.
From Stdlib Require Import Ascii String.
From Stdlib Require Import List Bool Arith Lia Permutation.
Import ListNotations.

#[local] Arguments Ascii.eqb : simpl never.
Local Open Scope char_scope.
Local Open Scope list_scope.

(** ** Strings *)

Definition str := list ascii.

(** A string literal as a Python string. *)
Definition s_ (s : string) : str := list_ascii_of_string s.

(** [m.startswith(p)] *)
Fixpoint startswith (p m : str) : bool :=
  match p, m with
  | [], _ => true
  | a :: p', b :: m' => (a =? b) && startswith p' m'
  | _ :: _, [] => false
  end.

(** The text after a leading [p], when [m] starts with [p]. *)
Fixpoint strip_prefix (p m : str) : option str :=
  match p, m with
  | [], _ => Some m
  | a :: p', b :: m' => if a =? b then strip_prefix p' m' else None
  | _ :: _, [] => None
  end.

(** [s == t] *)
Definition str_eqb (s t : str) : bool :=
  if list_eq_dec ascii_dec s t then true else false.

(** [m.endswith(p)]: [p] is [m] or the end of its tail. *)
Fixpoint endswith (m p : str) : bool :=
  str_eqb m p || match m with [] => false | _ :: m' => endswith m' p end.

(** [p in m] *)
Fixpoint contains (p m : str) : bool :=
  startswith p m || match m with [] => false | _ :: m' => contains p m' end.

(** [c in s] for a single character. *)
Definition has_char (c : ascii) (s : str) : bool := existsb (Ascii.eqb c) s.

(** [s.count(c)] for a single character. *)
Definition count_char (c : ascii) (s : str) : nat :=
  length (filter (Ascii.eqb c) s).

(** [s in items] *)
Definition mem (s : str) (items : list str) : bool := existsb (str_eqb s) items.

(** [sep.join(items)] *)
Fixpoint join (sep : str) (items : list str) : str :=
  match items with
  | [] => []
  | [x] => x
  | x :: rest => x ++ sep ++ join sep rest
  end.

(** ** The regular expression [{field}=[^;]*] *)

(** Characters with a meaning of their own in a Python regular expression. *)
Definition re_special (c : ascii) : bool :=
  has_char c (s_ ".^$*+?{}[]\|()").

(** A field name that, placed in a pattern, stands for itself. *)
Definition literal_field (field : str) : bool :=
  forallb (fun c => negb (re_special c)) field.

(** A replacement template without backslash is inserted as it is. *)
Definition literal_template (repl : str) : bool :=
  negb (has_char "\" repl).

(** The class [[^;]]: every character but the semicolon. *)
Definition not_semi (c : ascii) : bool := negb (c =? ";").

(** What [[^;]*] leaves: the text from the first semicolon on. *)
Fixpoint skip_value (m : str) : str :=
  match m with
  | [] => []
  | c :: m' => if not_semi c then skip_value m' else m
  end.

(** What [[^;]*] consumes: the text before the first semicolon. *)
Fixpoint take_value (m : str) : str :=
  match m with
  | [] => []
  | c :: m' => if not_semi c then c :: take_value m' else []
  end.

(** A match of [{field}=[^;]*] at the start of [m]: the text after it. *)
Definition match_field (field m : str) : option str :=
  match strip_prefix (field ++ ["="]) m with
  | Some r => Some (skip_value r)
  | None => None
  end.

(** A value together with the equation that it is the value of the term. *)
Definition inspect {A : Type} (x : A) : {y : A | x = y} := exist _ x eq_refl.

(** [re.sub(pattern, repl, m)] for the pattern [{field}=[^;]*] and a literal
    template [repl]: matches are found left to right and do not overlap; the
    text between them is copied.  The pattern matches at least the ['='], so
    no match is empty. *)
Equations? re_sub (field repl m : str) : str by wf (length m) lt :=
  re_sub field repl [] := [];
  re_sub field repl (c :: m') with inspect (match_field field (c :: m')) := {
    | exist _ (Some rest) _ := repl ++ re_sub field repl rest;
    | exist _ None _ := c :: re_sub field repl m' }.
Proof.
  unfold match_field in e.
  destruct (strip_prefix (field ++ ["="]) (c :: m')) as [r|] eqn:E; [|discriminate].
  injection e as <-.
  assert (Hstrip : forall p m t, strip_prefix p m = Some t -> length t <= length m).
  { induction p as [|a p IH]; intros [|b m] t; simpl; try congruence.
    - intros [= <-]. simpl. lia.
    - intros [= <-]. simpl. lia.
    - destruct (a =? b); [|discriminate]. intros H. specialize (IH _ _ H). lia. }
  assert (Hskip : forall m, length (skip_value m) <= length m).
  { induction m as [|a m IH]; simpl; [lia|]. destruct (not_semi a); simpl; lia. }
  assert (Hlt : length r < length (c :: m')).
  { destruct field as [|a f]; simpl in E.
    - destruct ("=" =? c); [|discriminate]. injection E as <-. simpl. lia.
    - destruct (a =? c); [|discriminate]. specialize (Hstrip _ _ _ E). simpl. lia. }
  specialize (Hskip r). simpl in *. lia.
Qed.

(** *** Field names with a dot

    In a pattern the dot stands for any character but the newline (the
    program passes no flag to [re.sub]).  A field name with dots and no
    other regular-expression syntax is a pattern of fixed length. *)

(** A field name whose only regular-expression syntax is the dot. *)
Definition dotted_field (field : str) : bool :=
  forallb (fun c => (c =? ".") || negb (re_special c)) field.

(** One character of the pattern against one character of the text. *)
Definition match_char (p c : ascii) : bool :=
  if p =? "." then negb (c =? "010") else p =? c.

(** The text after a leading match of the characters of [p]. *)
Fixpoint strip_pattern (p m : str) : option str :=
  match p, m with
  | [], _ => Some m
  | a :: p', b :: m' => if match_char a b then strip_pattern p' m' else None
  | _ :: _, [] => None
  end.

(** A match of [{field}=[^;]*] at the start of [m], the dots of [field]
    read as wildcards: the text after it. *)
Definition match_dotted (field m : str) : option str :=
  match strip_pattern field m with
  | Some after =>
      match strip_prefix ["="] after with
      | Some r => Some (skip_value r)
      | None => None
      end
  | None => None
  end.

(** [re.sub(pattern, repl, m)] for such a field and a literal template. *)
Equations? re_sub_dotted (field repl m : str) : str by wf (length m) lt :=
  re_sub_dotted field repl [] := [];
  re_sub_dotted field repl (c :: m') with inspect (match_dotted field (c :: m')) := {
    | exist _ (Some rest) _ := repl ++ re_sub_dotted field repl rest;
    | exist _ None _ := c :: re_sub_dotted field repl m' }.
Proof.
  unfold match_dotted in e.
  destruct (strip_pattern field (c :: m')) as [after|] eqn:E; [|discriminate].
  destruct (strip_prefix ["="] after) as [r|] eqn:E'; [|discriminate].
  injection e as <-.
  assert (Hstrip : forall p m t, strip_pattern p m = Some t -> length t <= length m).
  { induction p as [|a p IH]; intros [|b m] t; simpl; try congruence.
    - intros [= <-]. simpl. lia.
    - intros [= <-]. simpl. lia.
    - destruct (match_char a b); [|discriminate]. intros H. specialize (IH _ _ H). lia. }
  assert (Hskip : forall m, length (skip_value m) <= length m).
  { induction m as [|a m IH]; simpl; [lia|]. destruct (not_semi a); simpl; lia. }
  assert (Hafter : length r < length after).
  { destruct after as [|b after]; simpl in E'; [discriminate|].
    destruct ("=" =? b); [|discriminate]. injection E' as <-. simpl. lia. }
  specialize (Hstrip _ _ _ E). specialize (Hskip r). simpl in *. lia.
Qed.

(** ** filtered_logger.py *)

Definition PII_FIELDS : list str :=
  [s_ "name"; s_ "email"; s_ "phone"; s_ "ssn"; s_ "password"].

(** One turn of the loop of [filter_datum]:
    [re.sub(fr"{field}=[^;]*", f"{field}={redaction}", message)].
    A field without regular-expression syntax is matched by [re_sub], one
    whose only such syntax is the dot by [re_sub_dotted].  [None] stands for
    a call outside the modelled part of [re]: a field with other
    regular-expression syntax, or a template with a backslash. *)
Definition sub_field (field redaction message : str) : option str :=
  if literal_field field && literal_template (field ++ ["="] ++ redaction)
  then Some (re_sub field (field ++ ["="] ++ redaction) message)
  else if dotted_field field && literal_template (field ++ ["="] ++ redaction)
  then Some (re_sub_dotted field (field ++ ["="] ++ redaction) message)
  else None.

(** [RedactingFormatter.filter_datum]; [separator] is not used by the body. *)
Fixpoint filter_datum (fields : list str) (redaction message separator : str)
  : option str :=
  match fields with
  | [] => Some message
  | field :: fields' =>
      match sub_field field redaction message with
      | Some message' => filter_datum fields' redaction message' separator
      | None => None
      end
  end.

(** The outcome of a call: the value returned, or the class of the
    exception raised. *)
Inductive outcome (A : Type) : Type :=
| Returned (a : A)
| Raised (exc : string).
Arguments Returned {A} a.
Arguments Raised {A} exc.

(** *** class RedactingFormatter *)

Definition REDACTION : str := s_ "***".
Definition FORMAT : str :=
  s_ "[HOLBERTON] %(name)s %(levelname)s %(asctime)s: %(message)s".
Definition SEPARATOR : str := s_ "; ".

(** The instance: the format string kept by [logging.Formatter] and the
    attribute [fields]. *)
Record RedactingFormatter : Type := {
  fmt : str;
  fields : list str
}.

(** [__init__]: [super().__init__(self.FORMAT)], which accepts the constant
    format, then [self.fields = fields].  Nothing is checked. *)
Definition RedactingFormatter_init (fields : list str) : outcome RedactingFormatter :=
  Returned {| fmt := FORMAT; fields := fields |}.

Section Format.
(** [logging.LogRecord] and [logging.Formatter.format], from the standard
    library. *)
Variable LogRecord : Type.
Variable Formatter_format : str -> LogRecord -> str.

(** [format]: [message = super().format(record)], then [filter_datum]. *)
Definition format (self : RedactingFormatter) (record : LogRecord) : option str :=
  let message := Formatter_format (fmt self) record in
  filter_datum (fields self) REDACTION message SEPARATOR.
End Format.
Arguments format {LogRecord} Formatter_format self record.

(** ** encrypt_password.py *)

Definition bytes := list ascii.

(** A Python value passed where [bytes] is expected. *)
Inductive pyval : Type :=
| PyBytes (b : bytes)
| PyStr (s : str)
| PyNone.

(** [str.encode()]: UTF-8, one byte below 128 and two bytes from 128 to 255. *)
Definition utf8 (c : ascii) : bytes :=
  let n := nat_of_ascii c in
  if Nat.ltb n 128 then [c]
  else [ascii_of_nat (192 + n / 64); ascii_of_nat (128 + n mod 64)].

Definition encode (s : str) : bytes := flat_map utf8 s.

Section Bcrypt.
(** The [bcrypt] package: [gensalt] draws from a random source, whose state
    is passed along; [hashpw] and [checkpw] return or raise. *)
Variable rng : Type.
Variable gensalt : rng -> bytes * rng.
Variable hashpw : bytes -> bytes -> outcome bytes.
Variable checkpw : bytes -> pyval -> outcome bool.

Definition hash_password (password : str) (st : rng) : outcome bytes * rng :=
  let (salt, st') := gensalt st in
  (hashpw (encode password) salt, st').

Definition is_valid (hashed_password : pyval) (password : str) : outcome bool :=
  checkpw (encode password) hashed_password.
End Bcrypt.
Arguments hash_password {rng} gensalt hashpw password st.

(** The check of argument types that [bcrypt.checkpw] starts with: a digest
    that is not a byte string is refused with [TypeError]; byte strings are
    left to [compare]. *)
Definition checkpw_typed (compare : bytes -> bytes -> bool)
  (password : bytes) (hashed_password : pyval) : outcome bool :=
  match hashed_password with
  | PyBytes h => Returned (compare password h)
  | PyStr _ | PyNone => Raised "TypeError"
  end.

(** The check of the password that [bcrypt.hashpw] starts with, from version
    5.0 of the package on: a password of more than 72 bytes is refused with
    [ValueError]; any other is left to [crypt]. *)
Definition hashpw_checked (crypt : bytes -> bytes -> bytes)
  (password salt : bytes) : outcome bytes :=
  if Nat.ltb 72 (length password) then Raised "ValueError"
  else Returned (crypt password salt).

(** A random source for the examples: salts drawn from a counter. *)
Definition counter_gensalt (n : nat) : bytes * nat := ([ascii_of_nat n], S n).

(** ** Vocabulary of the properties *)

(** The calls of [filter_datum] in which each field stands for itself in the
    pattern (no regular-expression syntax) and the template is inserted as
    it is (no backslash). *)
Definition modelled (fields : list str) (redaction : str) : bool :=
  forallb (fun f => literal_field f && literal_template (f ++ ["="] ++ redaction))
    fields.

(** [user_data] of [main]: [f"{col}={val}"] for each column, joined. *)
Definition pair_text (p : str * str) : str := fst p ++ ["="] ++ snd p.

Definition render (separator : str) (pairs : list (str * str)) : str :=
  join separator (map pair_text pairs).

(** ** Segments

    The class [[^;]] stops a match at a semicolon, so a message is handled
    one semicolon-free segment at a time when no field holds a semicolon. *)

(** [m.split(";")] *)
Fixpoint split_semi (m : str) : list str :=
  match m with
  | [] => [[]]
  | c :: m' =>
      if c =? ";" then [] :: split_semi m'
      else match split_semi m' with
           | [] => [[c]]
           | s :: segs => (c :: s) :: segs
           end
  end.

(** The shortest prefix of [s] that ends with [p]. *)
Fixpoint cut (p s : str) : option str :=
  if startswith p s then Some p
  else match s with
       | [] => None
       | c :: s' => option_map (cons c) (cut p s')
       end.

(** The substitution within one segment: the first [field=] keeps its place
    and what follows it becomes the redaction. *)
Definition seg_sub (redaction field s : str) : str :=
  match cut (field ++ ["="]) s with
  | Some w => w ++ redaction
  | None => s
  end.

Definition seg_filter (fields : list str) (redaction s : str) : str :=
  fold_left (fun s f => seg_sub redaction f s) fields s.

(** Some field ends the text [a] that precedes an ['=']. *)
Definition hit (fields : list str) (a : str) : bool := existsb (endswith a) fields.

(** The pairs after redaction: a pair is rewritten when a field ends its key,
    read together with the separator's tail [tl] for all but the first. *)
Definition redact_pair (fields : list str) (redaction ctx : str) (p : str * str)
  : str * str :=
  (fst p, if hit fields (ctx ++ fst p) then redaction else snd p).

Definition redact_pairs (fields : list str) (redaction tl : str)
  (pairs : list (str * str)) : list (str * str) :=
  match pairs with
  | [] => []
  | p :: ps => redact_pair fields redaction [] p
               :: map (redact_pair fields redaction tl) ps
  end.

(** The text after a segment: nothing, or a semicolon and more. *)
Definition seg_end (tail : str) : Prop := tail = [] \/ exists t, tail = ";" :: t.

(** No semicolon and no ['='] in a string. *)
Definition no_semi (s : str) : bool := negb (has_char ";" s).
Definition no_eq (s : str) : bool := negb (has_char "=" s).
Definition clean (s : str) : bool := no_semi s && no_eq s.
Definition clean_pair (p : str * str) : bool := clean (fst p) && clean (snd p).

(** A field that ends a key, read after the separator's tail [tl], is that
    key: no field is the end of a longer key. *)
Definition anchored (fields : list str) (tl : str) (pairs : list (str * str)) : bool :=
  forallb (fun p =>
    forallb (fun f => implb (endswith (tl ++ fst p) f) (str_eqb (fst p) f)) fields)
    pairs.

(** The pairs with the value of every key in [fields] replaced. *)
Definition redact_keys (fields : list str) (redaction : str)
  (pairs : list (str * str)) : list (str * str) :=
  map (fun p => (fst p, if mem (fst p) fields then redaction else snd p)) pairs.

(** A pair whose key, read after [ctx], ends with a field has its key among
    the fields, or the redaction as its value already. *)
Definition covered_pair (fields : list str) (redaction ctx : str) (p : str * str)
  : bool :=
  implb (hit fields (ctx ++ fst p))
    (mem (fst p) fields || str_eqb (snd p) redaction).

(** That for every pair, the first read as it stands and the others after
    the separator's tail [tl]. *)
Definition covered (fields : list str) (redaction tl : str)
  (pairs : list (str * str)) : bool :=
  match pairs with
  | [] => true
  | p :: ps => covered_pair fields redaction [] p
               && forallb (covered_pair fields redaction tl) ps
  end.

(** No field followed by ['='] occurs in the message. *)
Definition absent (fields : list str) (message : str) : bool :=
  forallb (fun f => negb (contains (f ++ ["="]) message)) fields.

(** ** The rest of filtered_logger.py *)

(** *** Records and their rendering *)

(** A [logging.LogRecord] without exception or stack information, as
    [logger.info(msg)] makes it: the attributes that [FORMAT] reads, with
    [asctime] as [formatTime] rendered it. *)
Record LogRecord : Type := {
  rec_name : str;
  rec_levelname : str;
  rec_asctime : str;
  rec_message : str
}.

(** [record.__dict__[key]] for those attributes. *)
Definition record_dict (record : LogRecord) (key : str) : option str :=
  if str_eqb key (s_ "name") then Some (rec_name record)
  else if str_eqb key (s_ "levelname") then Some (rec_levelname record)
  else if str_eqb key (s_ "asctime") then Some (rec_asctime record)
  else if str_eqb key (s_ "message") then Some (rec_message record)
  else None.

(** Where the scan of a format string stands: in plain text, after ['%'],
    inside [(key], or after [(key)]. *)
Inductive percent_mode : Type :=
| PText
| PPercent
| PKey (acc : str)
| PConv (key : str).

(** [fmt % d] for a format made of text and [%(key)s]; [None] for any other
    conversion and for a missing key. *)
Fixpoint percent_format (mode : percent_mode) (fmt : str) (d : str -> option str)
  : option str :=
  match fmt with
  | [] => match mode with PText => Some [] | _ => None end
  | c :: fmt' =>
      match mode with
      | PText =>
          if c =? "%" then percent_format PPercent fmt' d
          else option_map (cons c) (percent_format PText fmt' d)
      | PPercent =>
          if c =? "(" then percent_format (PKey []) fmt' d else None
      | PKey acc =>
          if c =? ")" then percent_format (PConv (rev acc)) fmt' d
          else percent_format (PKey (c :: acc)) fmt' d
      | PConv key =>
          if c =? "s" then
            match d key with
            | Some v => option_map (app v) (percent_format PText fmt' d)
            | None => None
            end
          else None
      end
  end.

(** [logging.Formatter.format] for such a record: [self._fmt % record.__dict__]. *)
Definition Formatter_format (fmt : str) (record : LogRecord) : option str :=
  percent_format PText fmt (record_dict record).

(** [RedactingFormatter.format] with that [super().format]. *)
Definition RedactingFormatter_format (self : RedactingFormatter) (record : LogRecord)
  : option str :=
  match Formatter_format (fmt self) record with
  | Some message => filter_datum (fields self) REDACTION message SEPARATOR
  | None => None
  end.

(** What [FORMAT] puts before the message. *)
Definition line_prefix (record : LogRecord) : str :=
  s_ "[HOLBERTON] " ++ rec_name record ++ s_ " " ++ rec_levelname record
  ++ s_ " " ++ rec_asctime record ++ s_ ": ".

(** *** The logging module *)

Definition NOTSET : nat := 0.
Definition DEBUG : nat := 10.
Definition INFO : nat := 20.
Definition WARNING : nat := 30.
Definition ERROR : nat := 40.
Definition CRITICAL : nat := 50.

(** [logging.getLevelName] for the standard levels. *)
Definition getLevelName (level : nat) : option str :=
  if Nat.eqb level DEBUG then Some (s_ "DEBUG")
  else if Nat.eqb level INFO then Some (s_ "INFO")
  else if Nat.eqb level WARNING then Some (s_ "WARNING")
  else if Nat.eqb level ERROR then Some (s_ "ERROR")
  else if Nat.eqb level CRITICAL then Some (s_ "CRITICAL")
  else None.

(** A [StreamHandler()] on [sys.stderr], level [NOTSET], with its formatter. *)
Record Handler : Type := { formatter : RedactingFormatter }.

Record Logger : Type := {
  level : nat;
  propagate : bool;
  handlers : list Handler
}.

(** The state that the program shares through the logging module: the
    loggers by name (the first entry of a name is the logger) and what was
    written to [sys.stderr]. *)
Record world : Type := {
  loggers : list (str * Logger);
  stderr : list str
}.

Definition find_logger (name : str) (w : world) : option Logger :=
  match find (fun entry => str_eqb name (fst entry)) (loggers w) with
  | Some entry => Some (snd entry)
  | None => None
  end.

Definition set_logger (name : str) (logger : Logger) (w : world) : world :=
  {| loggers := (name, logger) :: loggers w; stderr := stderr w |}.

(** [logging.getLogger(name)]: the logger of that name, made on first use
    with level [NOTSET], propagation on and no handler. *)
Definition getLogger (name : str) (w : world) : Logger * world :=
  match find_logger name w with
  | Some logger => (logger, w)
  | None =>
      let logger := {| level := NOTSET; propagate := true; handlers := [] |} in
      (logger, set_logger name logger w)
  end.

(** [get_logger]: the logger [user_data] is fetched, set to [INFO] without
    propagation, and given one more stream handler with a
    [RedactingFormatter(PII_FIELDS)]. *)
Definition get_logger (w : world) : outcome world :=
  let (logger, w1) := getLogger (s_ "user_data") w in
  let logger := {| level := INFO; propagate := propagate logger;
                   handlers := handlers logger |} in
  let logger := {| level := level logger; propagate := false;
                   handlers := handlers logger |} in
  match RedactingFormatter_init PII_FIELDS with
  | Raised exc => Raised exc
  | Returned self =>
      let stream_handler := {| formatter := self |} in
      let logger := {| level := level logger; propagate := propagate logger;
                       handlers := handlers logger ++ [stream_handler] |} in
      Returned (set_logger (s_ "user_data") logger w1)
  end.

(** [get_logger] called [n] times in a row. *)
Fixpoint get_logger_times (n : nat) (w : world) : outcome world :=
  match n with
  | 0 => Returned w
  | S n' =>
      match get_logger w with
      | Returned w' => get_logger_times n' w'
      | Raised exc => Raised exc
      end
  end.

(** [StreamHandler.terminator]: a newline. *)
Definition terminator : str := ["010"].

(** [StreamHandler.emit] for each handler in turn: the formatted record and
    the terminator are written to the stream. *)
Fixpoint callHandlers (hs : list Handler) (record : LogRecord) (w : world)
  : option world :=
  match hs with
  | [] => Some w
  | h :: hs' =>
      match RedactingFormatter_format (formatter h) record with
      | Some line =>
          callHandlers hs' record
            {| loggers := loggers w; stderr := stderr w ++ [line ++ terminator] |}
      | None => None
      end
  end.

(** [logger.log(lvl, msg)] on the logger of that name, at the time rendered
    as [asctime].  [None] stands for what the model leaves out: a logger that
    was not made, one whose level or handlers come from its parent, a level
    without a standard name, a formatter outside the model of [re]. *)
Definition Logger_log (lvl : nat) (name asctime msg : str) (w : world) : option world :=
  match find_logger name w with
  | None => None
  | Some logger =>
      if Nat.eqb (level logger) NOTSET then None
      else if Nat.ltb lvl (level logger) then Some w
      else
        match getLevelName lvl, handlers logger with
        | None, _ => None
        | Some _, [] => None
        | Some levelname, hs =>
            if propagate logger then None
            else callHandlers hs
                   {| rec_name := name; rec_levelname := levelname;
                      rec_asctime := asctime; rec_message := msg |} w
        end
  end.

(** [logger.info(msg)] *)
Definition Logger_info (name asctime msg : str) (w : world) : option world :=
  Logger_log INFO name asctime msg w.

(** *** get_db *)

(** [os.environ] *)
Definition environ := str -> option str.

(** [os.getenv(key, default)]; the default of [default] is [None]. *)
Definition getenv (env : environ) (key : str) (default : option str) : option str :=
  match env key with
  | Some value => Some value
  | None => default
  end.

(** The dictionary [db_config]. *)
Record db_config : Type := {
  cfg_user : option str;
  cfg_password : option str;
  cfg_host : option str;
  cfg_database : option str
}.

Definition get_db_config (env : environ) : db_config :=
  {| cfg_user := getenv env (s_ "PERSONAL_DATA_DB_USERNAME") (Some (s_ "root"));
     cfg_password := getenv env (s_ "PERSONAL_DATA_DB_PASSWORD") (Some []);
     cfg_host := getenv env (s_ "PERSONAL_DATA_DB_HOST") (Some (s_ "localhost"));
     cfg_database := getenv env (s_ "PERSONAL_DATA_DB_NAME") None |}.

Section Database.
(** [mysql.connector.connect] and the values of a row, with their rendering
    in an f-string. *)
Variable MySQLConnection : Type.
Variable connect : db_config -> outcome MySQLConnection.
Variable value : Type.
Variable format_value : value -> str.

(** The clock: the time, rendered, at which the [i]-th record is made. *)
Variable now : nat -> str.

Definition get_db (env : environ) : outcome MySQLConnection :=
  connect (get_db_config env).

(** [user_data] of [main] for one row. *)
Definition user_data (columns : list str) (row : list value) : str :=
  join (s_ "; ")
    (map (fun cv => fst cv ++ ["="] ++ format_value (snd cv)) (combine columns row)).

(** The loop of [main] over the rows of the cursor, from the [i]-th record on. *)
Fixpoint log_rows (columns : list str) (rows : list (list value)) (i : nat) (w : world)
  : option world :=
  match rows with
  | [] => Some w
  | row :: rows' =>
      match Logger_info (s_ "user_data") (now i) (user_data columns row) w with
      | Some w' => log_rows columns rows' (S i) w'
      | None => None
      end
  end.

(** [main], for the column names and the rows that the query gave. *)
Definition main (columns : list str) (rows : list (list value)) (w : world)
  : option world :=
  match get_logger w with
  | Returned w1 => log_rows columns rows 0 w1
  | Raised _ => None
  end.
End Database.
Arguments get_db {MySQLConnection} connect env.
Arguments user_data {value} format_value columns row.
Arguments log_rows {value} format_value now columns rows i w.
Arguments main {value} format_value now columns rows w.

(** [s] without the fields that occur earlier in it. *)
Definition dedup (fields : list str) : list str :=
  nodup (list_eq_dec ascii_dec) fields.

(** No space in a string. *)
Definition no_space (s : str) : bool := negb (has_char " " s).

(** A text followed by the redaction and then nothing or a semicolon. *)
Definition redacted_here (redaction v : str) : Prop :=
  exists t, v = redaction ++ t /\ seg_end t.

(** The pairs after redaction when a text [pre] stands before the first. *)
Definition redact_pairs_after (fields : list str) (redaction pre tl : str)
  (pairs : list (str * str)) : list (str * str) :=
  match pairs with
  | [] => []
  | p :: ps => redact_pair fields redaction pre p
               :: map (redact_pair fields redaction tl) ps
  end.

(** The handler that [get_logger] adds. *)
Definition pii_handler : Handler :=
  {| formatter := {| fmt := FORMAT; fields := PII_FIELDS |} |}.

(** The handlers of the logger [user_data], none when it was not made. *)
Definition user_data_handlers (w : world) : list Handler :=
  match find_logger (s_ "user_data") w with
  | Some logger => handlers logger
  | None => []
  end.

(** The record of [logger.info(msg)] on the logger [user_data]. *)
Definition info_record (asctime msg : str) : LogRecord :=
  {| rec_name := s_ "user_data"; rec_levelname := s_ "INFO";
     rec_asctime := asctime; rec_message := msg |}.

(** The variables that [get_db] names. *)
Definition db_variables : list str :=
  [s_ "PERSONAL_DATA_DB_USERNAME"; s_ "PERSONAL_DATA_DB_PASSWORD";
   s_ "PERSONAL_DATA_DB_HOST"; s_ "PERSONAL_DATA_DB_NAME"].

(** The first character of a UTF-8 text of characters below 256, and the
    bytes after it. *)
Definition utf8_head (b : bytes) : option (ascii * bytes) :=
  match b with
  | [] => None
  | c :: r =>
      if Nat.ltb (nat_of_ascii c) 128 then Some (c, r)
      else match r with
           | d :: r' =>
               Some (ascii_of_nat ((nat_of_ascii c - 192) * 64 + (nat_of_ascii d - 128)),
                     r')
           | [] => None
           end
  end.

(** * Properties *)

(** ** Prefixes *)

Lemma str_eqb_eq s t : str_eqb s t = true <-> s = t.
Proof. unfold str_eqb. destruct (list_eq_dec ascii_dec s t); split; congruence. Qed.

Lemma str_eqb_refl s : str_eqb s s = true.
Proof. apply str_eqb_eq. reflexivity. Qed.

Lemma startswith_app p r : startswith p (p ++ r) = true.
Proof. induction p as [|a p IH]; simpl; [reflexivity|]. rewrite Ascii.eqb_refl. exact IH. Qed.

Lemma startswith_inv p m : startswith p m = true -> exists r, m = p ++ r.
Proof.
  revert m; induction p as [|a p IH]; intros m H; simpl in *.
  - exists m. reflexivity.
  - destruct m as [|b m]; [discriminate|].
    apply andb_true_iff in H as [Hab H]. apply Ascii.eqb_eq in Hab. subst b.
    destruct (IH _ H) as [r ->]. exists r. reflexivity.
Qed.

Lemma strip_prefix_startswith p m :
  strip_prefix p m = None <-> startswith p m = false.
Proof.
  revert m; induction p as [|a p IH]; intros [|b m]; simpl; try (split; congruence).
  destruct (a =? b); simpl; [apply IH | split; congruence].
Qed.

Lemma strip_prefix_app p r : strip_prefix p (p ++ r) = Some r.
Proof. induction p as [|a p IH]; simpl; [reflexivity|]. rewrite Ascii.eqb_refl. exact IH. Qed.

Lemma strip_prefix_inv p m r : strip_prefix p m = Some r -> m = p ++ r.
Proof.
  revert m; induction p as [|a p IH]; intros [|b m]; simpl; try congruence.
  destruct (a =? b) eqn:E; [|discriminate]. apply Ascii.eqb_eq in E. subst b.
  intros H. rewrite (IH _ H). reflexivity.
Qed.

(** A prefix no longer than [a] lies within [a]. *)
Lemma startswith_app_short p a z :
  length p <= length a -> startswith p (a ++ z) = startswith p a.
Proof.
  revert a; induction p as [|c p IH]; intros [|b a] H; simpl in *; try reflexivity; try lia.
  rewrite IH by lia. reflexivity.
Qed.

Lemma startswith_app_mono p a z :
  startswith p a = true -> startswith p (a ++ z) = true.
Proof.
  intros H. destruct (startswith_inv _ _ H) as [r ->]. rewrite <- app_assoc.
  apply startswith_app.
Qed.

(** A prefix of [a ++ z] that is not one of [a] reaches into [z]. *)
Lemma startswith_app_over p a z :
  startswith p (a ++ z) = true -> startswith p a = false ->
  exists z1 z2, p = a ++ z1 /\ z = z1 ++ z2 /\ z1 <> [].
Proof.
  revert a; induction p as [|c p IH]; intros a H1 H2; simpl in *.
  - destruct a; discriminate.
  - destruct a as [|b a]; simpl in *.
    + destruct (startswith_inv (c :: p) z H1) as [r ->].
      exists (c :: p), r. repeat split. discriminate.
    + apply andb_true_iff in H1 as [E H1]. rewrite E in H2. simpl in H2.
      apply Ascii.eqb_eq in E. subst b.
      destruct (IH _ H1 H2) as (z1 & z2 & -> & -> & Hne).
      exists z1, z2. repeat split. exact Hne.
Qed.

(** ** Characters of a string *)

Lemma has_char_app c s t : has_char c (s ++ t) = has_char c s || has_char c t.
Proof. apply existsb_app. Qed.

Lemma count_char_app c s t : count_char c (s ++ t) = count_char c s + count_char c t.
Proof. unfold count_char. rewrite filter_app, length_app. reflexivity. Qed.

Lemma count_char_absent c s : has_char c s = false -> count_char c s = 0.
Proof.
  unfold count_char, has_char. induction s as [|a s IH]; simpl; [reflexivity|].
  destruct (Ascii.eqb c a); simpl; [discriminate | exact IH].
Qed.

Lemma value_split m : m = take_value m ++ skip_value m.
Proof.
  induction m as [|c m IH]; simpl; [reflexivity|].
  destruct (not_semi c); simpl; [f_equal; exact IH | reflexivity].
Qed.

Lemma take_value_no_semi m : has_char ";" (take_value m) = false.
Proof.
  induction m as [|c m IH]; simpl; [reflexivity|].
  destruct (not_semi c) eqn:E; simpl; [|reflexivity].
  unfold not_semi in E. rewrite Ascii.eqb_sym in E.
  destruct (Ascii.eqb ";" c); [discriminate | exact IH].
Qed.

(** ** The substitution loop *)

Lemma re_sub_cons field repl c m' :
  re_sub field repl (c :: m') =
  match match_field field (c :: m') with
  | Some rest => repl ++ re_sub field repl rest
  | None => c :: re_sub field repl m'
  end.
Proof.
  simp re_sub. generalize (inspect (match_field field (c :: m'))).
  intros [[rest|] e]; simpl; rewrite e; reflexivity.
Qed.

(** Induction along the positions [re.sub] visits. *)
Lemma re_sub_scan_ind (field : str) (P : str -> Prop) :
  P [] ->
  (forall c m' rest, match_field field (c :: m') = Some rest -> P rest -> P (c :: m')) ->
  (forall c m', match_field field (c :: m') = None -> P m' -> P (c :: m')) ->
  forall m, P m.
Proof.
  intros Hnil Hhit Hmiss m.
  refine (re_sub_elim
            (fun f _ m _ =>
               forall Q : str -> Prop,
                 Q [] ->
                 (forall c m' rest,
                    match_field f (c :: m') = Some rest -> Q rest -> Q (c :: m')) ->
                 (forall c m', match_field f (c :: m') = None -> Q m' -> Q (c :: m')) ->
                 Q m)
            _ _ _ field [] m P Hnil Hhit Hmiss).
  - intros f r Q Qnil Qhit Qmiss. exact Qnil.
  - intros f r c m' rest e IH _ Q Qnil Qhit Qmiss.
    apply (Qhit _ _ _ e). apply IH; assumption.
  - intros f r c m' e IH _ Q Qnil Qhit Qmiss.
    apply (Qmiss _ _ e). apply IH; assumption.
Qed.

(** The text of a match: the field, ['='] and a value without semicolon. *)
Lemma match_field_inv field m rest :
  match_field field m = Some rest ->
  exists value, m = (field ++ ["="]) ++ value ++ rest /\ has_char ";" value = false.
Proof.
  unfold match_field. destruct (strip_prefix _ m) as [r|] eqn:E; [|discriminate].
  intros [= <-]. apply strip_prefix_inv in E. exists (take_value r). split.
  - rewrite E at 1. f_equal. apply value_split.
  - apply take_value_no_semi.
Qed.

Lemma re_sub_count_semi field redaction m :
  has_char ";" redaction = false ->
  count_char ";" (re_sub field (field ++ ["="] ++ redaction) m) = count_char ";" m.
Proof.
  intros HR. induction m as [| c m' rest E IH | c m' E IH] using (re_sub_scan_ind field).
  - reflexivity.
  - rewrite re_sub_cons, E.
    destruct (match_field_inv _ _ _ E) as (value & -> & Hv).
    rewrite !count_char_app, IH.
    rewrite (count_char_absent _ _ HR), (count_char_absent _ _ Hv).
    change (count_char ";" ["="]) with 0. lia.
  - rewrite re_sub_cons, E. change (c :: m') with ([c] ++ m').
    change (c :: re_sub field (field ++ ["="] ++ redaction) m')
      with ([c] ++ re_sub field (field ++ ["="] ++ redaction) m').
    rewrite !count_char_app, IH. reflexivity.
Qed.

(** *** Field names with a dot *)

Lemma re_sub_dotted_cons field repl c m' :
  re_sub_dotted field repl (c :: m') =
  match match_dotted field (c :: m') with
  | Some rest => repl ++ re_sub_dotted field repl rest
  | None => c :: re_sub_dotted field repl m'
  end.
Proof.
  simp re_sub_dotted. generalize (inspect (match_dotted field (c :: m'))).
  intros [[rest|] e]; simpl; rewrite e; reflexivity.
Qed.

Lemma literal_field_dotted field : literal_field field = true -> dotted_field field = true.
Proof.
  unfold literal_field, dotted_field. intros H. rewrite forallb_forall in *.
  intros c Hc. rewrite (H c Hc). apply orb_true_r.
Qed.

(** Without a dot in the field the two matchers are one. *)
Lemma match_dotted_literal field m :
  literal_field field = true -> match_dotted field m = match_field field m.
Proof.
  unfold match_dotted, match_field. revert m.
  induction field as [|a f IH]; intros m H; [reflexivity|].
  cbn [literal_field forallb] in H. apply andb_true_iff in H as [Ha H].
  destruct m as [|b m]; [reflexivity|]. cbn [strip_pattern app strip_prefix].
  assert (Hdot : (a =? ".") = false).
  { unfold re_special in Ha. apply negb_true_iff in Ha.
    change (has_char a (s_ ".^$*+?{}[]\|()"))
      with ((a =? ".") || has_char a (s_ "^$*+?{}[]\|()")) in Ha.
    apply orb_false_iff in Ha. apply Ha. }
  unfold match_char. rewrite Hdot. destruct (a =? b); [apply IH; exact H | reflexivity].
Qed.

Lemma re_sub_dotted_literal field repl m :
  literal_field field = true -> re_sub_dotted field repl m = re_sub field repl m.
Proof.
  intros H. induction m as [| c m' rest E IH | c m' E IH] using (re_sub_scan_ind field).
  - simp re_sub_dotted re_sub. reflexivity.
  - rewrite re_sub_dotted_cons, re_sub_cons, (match_dotted_literal _ _ H), E, IH.
    reflexivity.
  - rewrite re_sub_dotted_cons, re_sub_cons, (match_dotted_literal _ _ H), E, IH.
    reflexivity.
Qed.

(** ** Cutting a segment *)

Lemma cut_length p s w : cut p s = Some w -> length p <= length w.
Proof.
  revert w; induction s as [|c s IH]; intros w; simpl.
  - destruct (startswith p []); [intros [= <-]; lia | discriminate].
  - destruct (startswith p (c :: s)); [intros [= <-]; lia|].
    destruct (cut p s) as [w'|]; [|discriminate]. intros [= <-].
    specialize (IH _ eq_refl). simpl. lia.
Qed.

Lemma cut_prefix p s w : cut p s = Some w -> exists v, s = w ++ v.
Proof.
  revert w; induction s as [|c s IH]; intros w; simpl.
  - destruct (startswith p []) eqn:E; [|discriminate]. intros [= <-].
    apply startswith_inv in E. exact E.
  - destruct (startswith p (c :: s)) eqn:E.
    + intros [= <-]. apply startswith_inv in E. exact E.
    + destruct (cut p s) as [w'|]; [|discriminate]. intros [= <-].
      destruct (IH _ eq_refl) as [v ->]. exists v. reflexivity.
Qed.

Lemma cut_start p s : startswith p s = true -> cut p s = Some p.
Proof. intros H. destruct s; simpl; rewrite H; reflexivity. Qed.

(** The cut depends on the kept prefix alone. *)
Lemma cut_stable p s w z : cut p s = Some w -> cut p (w ++ z) = Some w.
Proof.
  revert w; induction s as [|c s IH]; intros w; simpl.
  - destruct (startswith p []) eqn:E; [|discriminate]. intros [= <-].
    apply cut_start, startswith_app.
  - destruct (startswith p (c :: s)) eqn:E.
    + intros [= <-]. apply cut_start, startswith_app.
    + destruct (cut p s) as [w'|] eqn:Ec; [|discriminate]. intros [= <-].
      pose proof (cut_length _ _ _ Ec) as Hlen.
      destruct (cut_prefix _ _ _ Ec) as [v ->].
      change ((c :: w') ++ z) with (c :: w' ++ z).
      cbn [cut]. change (c :: w' ++ z) with ((c :: w') ++ z).
      rewrite startswith_app_short by (simpl; lia).
      change (c :: w' ++ v) with ((c :: w') ++ v) in E.
      rewrite startswith_app_short in E by (simpl; lia). rewrite E.
      change ((c :: w') ++ z) with (c :: w' ++ z).
      rewrite (IH _ eq_refl). reflexivity.
Qed.

Lemma cut_self p s w : cut p s = Some w -> cut p w = Some w.
Proof. intros H. rewrite <- (app_nil_r w) at 1. exact (cut_stable _ _ _ [] H). Qed.

Lemma cut_app_some p w z x : cut p w = Some x -> cut p (w ++ z) = Some x.
Proof.
  intros H. destruct (cut_prefix _ _ _ H) as [v ->]. rewrite <- app_assoc.
  exact (cut_stable _ _ _ _ H).
Qed.

(** A cut of [w ++ z] that [w] does not have keeps all of [w]. *)
Lemma cut_app_none p w z x :
  cut p w = None -> cut p (w ++ z) = Some x -> exists z', x = w ++ z'.
Proof.
  revert x; induction w as [|c w IH]; intros x Hn Hs.
  - exists x. reflexivity.
  - simpl in Hn. destruct (startswith p (c :: w)) eqn:E; [discriminate|].
    destruct (cut p w) as [?|] eqn:Ec; [discriminate|].
    change ((c :: w) ++ z) with (c :: w ++ z) in Hs. cbn [cut] in Hs.
    destruct (startswith p (c :: w ++ z)) eqn:E'.
    + injection Hs as <-.
      destruct (startswith_app_over p (c :: w) z E' E) as (z1 & _ & -> & _).
      exists z1. reflexivity.
    + destruct (cut p (w ++ z)) as [x'|] eqn:Ec'; [|discriminate].
      injection Hs as <-. destruct (IH _ eq_refl eq_refl) as [z' ->].
      exists z'. reflexivity.
Qed.

Lemma app_prefix_eq (w1 w2 v1 v2 : str) :
  w1 ++ v1 = w2 ++ v2 -> length w1 = length w2 -> w1 = w2.
Proof.
  revert w2; induction w1 as [|a w1 IH]; intros [|b w2]; simpl; try discriminate.
  - reflexivity.
  - intros [= -> H] [= L]. f_equal. exact (IH _ H L).
Qed.

(** What [seg_sub] returns extends the prefix [w] when the field does not
    occur within [w], and is decided by [w] when it does. *)
Lemma seg_sub_app redaction field w z :
  (exists x, cut (field ++ ["="]) w = Some x /\
             forall z', seg_sub redaction field (w ++ z') = x ++ redaction) \/
  (cut (field ++ ["="]) w = None /\ exists z', seg_sub redaction field (w ++ z) = w ++ z').
Proof.
  destruct (cut (field ++ ["="]) w) as [x|] eqn:E.
  - left. exists x. split; [reflexivity|]. intros z'. unfold seg_sub.
    rewrite (cut_app_some _ _ z' _ E). reflexivity.
  - right. split; [reflexivity|]. unfold seg_sub.
    destruct (cut (field ++ ["="]) (w ++ z)) as [x|] eqn:E'.
    + destruct (cut_app_none _ _ _ _ E E') as [z' ->]. exists (z' ++ redaction).
      rewrite app_assoc. reflexivity.
    + exists z. reflexivity.
Qed.

(** A prefix that the whole filter keeps is kept whatever follows it. *)
Lemma seg_filter_keeps_prefix fields redaction :
  forall y w z,
    (exists v, y = w ++ v) ->
    (exists v, seg_filter fields redaction y = w ++ v) ->
    exists v, seg_filter fields redaction (w ++ z) = w ++ v.
Proof.
  induction fields as [|f fields IH]; intros y w z [v ->] Hkeep.
  - exists z. reflexivity.
  - unfold seg_filter in *. cbn [fold_left] in *.
    destruct (seg_sub_app redaction f w z) as [(x & _ & Hx) | (Hn & z' & Hz)].
    + rewrite Hx. rewrite Hx in Hkeep. exact Hkeep.
    + rewrite Hz.
      destruct (seg_sub_app redaction f w v) as [(x & Hx & _) | (_ & v' & Hv)];
        [congruence|].
      rewrite Hv in Hkeep. apply (IH (w ++ v')); [exists v'; reflexivity | exact Hkeep].
Qed.

Lemma seg_filter_snoc fields f redaction s :
  seg_filter (fields ++ [f]) redaction s
  = seg_sub redaction f (seg_filter fields redaction s).
Proof. unfold seg_filter. rewrite fold_left_app. reflexivity. Qed.

Lemma seg_filter_idempotent fields redaction s :
  seg_filter fields redaction (seg_filter fields redaction s)
  = seg_filter fields redaction s.
Proof.
  revert s; induction fields as [|f fields IH] using rev_ind; intros s.
  - reflexivity.
  - rewrite !seg_filter_snoc. set (y := seg_filter fields redaction s).
    assert (Hy : seg_filter fields redaction y = y) by apply IH.
    unfold seg_sub at 2 3. destruct (cut (f ++ ["="]) y) as [w|] eqn:E.
    + destruct (cut_prefix _ _ _ E) as [v Hv].
      destruct (seg_filter_keeps_prefix fields redaction y w redaction) as [v' Hv'].
      * exists v. exact Hv.
      * exists v. rewrite Hy. exact Hv.
      * rewrite Hv'. unfold seg_sub. rewrite (cut_stable _ _ _ v' E). reflexivity.
    + rewrite Hy. unfold seg_sub. rewrite E. reflexivity.
Qed.

(** ** A redaction without ['='] creates no match *)

Lemma startswith_has_char c p m :
  startswith p m = true -> has_char c p = true -> has_char c m = true.
Proof.
  intros H Hc. destruct (startswith_inv _ _ H) as [r ->].
  rewrite has_char_app, Hc. reflexivity.
Qed.

Lemma pattern_has_eq field : has_char "=" (field ++ ["="]) = true.
Proof. rewrite has_char_app. apply orb_true_r. Qed.

Lemma cut_absent field s : has_char "=" s = false -> cut (field ++ ["="]) s = None.
Proof.
  induction s as [|c s IH]; intros H; simpl.
  - destruct (startswith (field ++ ["="]) []) eqn:E; [|reflexivity].
    pose proof (startswith_has_char "=" _ _ E (pattern_has_eq field)). discriminate.
  - destruct (startswith (field ++ ["="]) (c :: s)) eqn:E.
    + pose proof (startswith_has_char "=" _ _ E (pattern_has_eq field)). congruence.
    + simpl in H. apply orb_false_iff in H as [_ H]. rewrite (IH H). reflexivity.
Qed.

Lemma has_char_last c z1 :
  z1 <> [] -> forall a, exists z0 d, a ++ z1 = z0 ++ [d] /\ has_char c z1 = has_char c (removelast z1) || Ascii.eqb c d.
Proof.
  intros Hne a. exists (a ++ removelast z1), (last z1 "="). split.
  - rewrite <- app_assoc. f_equal. apply app_removelast_last. exact Hne.
  - rewrite (app_removelast_last "=" Hne) at 1. rewrite has_char_app. simpl.
    rewrite orb_false_r. reflexivity.
Qed.

Lemma startswith_inert field redaction a :
  has_char "=" redaction = false ->
  startswith (field ++ ["="]) (a ++ redaction) = startswith (field ++ ["="]) a.
Proof.
  intros HR. destruct (startswith (field ++ ["="]) a) eqn:E.
  - apply startswith_app_mono. exact E.
  - destruct (startswith (field ++ ["="]) (a ++ redaction)) eqn:E'; [|reflexivity].
    destruct (startswith_app_over _ _ _ E' E) as (z1 & z2 & Hp & -> & Hne).
    destruct (has_char_last "=" z1 Hne a) as (z0 & d & Hz & Hd).
    rewrite Hz in Hp. apply app_inj_tail in Hp as [_ <-].
    rewrite has_char_app, Hd, Ascii.eqb_refl, orb_true_r in HR. discriminate.
Qed.

Lemma cut_inert field redaction w :
  has_char "=" redaction = false ->
  cut (field ++ ["="]) (w ++ redaction) = cut (field ++ ["="]) w.
Proof.
  intros HR. induction w as [|c w IH].
  - simpl. rewrite (cut_absent field redaction HR).
    destruct (startswith (field ++ ["="]) []) eqn:E; [|reflexivity].
    pose proof (startswith_has_char "=" _ _ E (pattern_has_eq field)). discriminate.
  - change ((c :: w) ++ redaction) with (c :: w ++ redaction). cbn [cut].
    change (c :: w ++ redaction) with ((c :: w) ++ redaction).
    rewrite (startswith_inert field redaction (c :: w) HR), IH. reflexivity.
Qed.

Lemma seg_sub_commute redaction f g s :
  has_char "=" redaction = false ->
  seg_sub redaction g (seg_sub redaction f s)
  = seg_sub redaction f (seg_sub redaction g s).
Proof.
  intros HR.
  assert (step : forall f g wf,
    cut (f ++ ["="]) s = Some wf ->
    seg_sub redaction g (wf ++ redaction)
    = match cut (g ++ ["="]) wf with Some x => x ++ redaction | None => wf ++ redaction end).
  { intros f0 g0 wf _. unfold seg_sub. rewrite (cut_inert g0 redaction wf HR).
    reflexivity. }
  unfold seg_sub at 2 4.
  destruct (cut (f ++ ["="]) s) as [wf|] eqn:Ef;
    destruct (cut (g ++ ["="]) s) as [wg|] eqn:Eg.
  - rewrite (step f g wf Ef), (step g f wg Eg).
    destruct (cut_prefix _ _ _ Ef) as [vf Hf]. destruct (cut_prefix _ _ _ Eg) as [vg Hg].
    destruct (cut (g ++ ["="]) wf) as [x|] eqn:Egf;
      destruct (cut (f ++ ["="]) wg) as [y|] eqn:Efg.
    + pose proof (cut_app_some _ _ vf _ Egf) as H1. rewrite <- Hf, Eg in H1.
      pose proof (cut_app_some _ _ vg _ Efg) as H2. rewrite <- Hg, Ef in H2.
      injection H1 as <-. injection H2 as <-.
      destruct (cut_prefix _ _ _ Egf) as [a Ha]. destruct (cut_prefix _ _ _ Efg) as [b Hb].
      f_equal. apply (app_prefix_eq wg wf vg vf); [congruence|].
      apply (f_equal (@length ascii)) in Ha, Hb. rewrite length_app in Ha, Hb. lia.
    + pose proof (cut_app_some _ _ vf _ Egf) as H1. rewrite <- Hf, Eg in H1.
      congruence.
    + pose proof (cut_app_some _ _ vg _ Efg) as H2. rewrite <- Hg, Ef in H2.
      congruence.
    + exfalso.
      assert (H1 : cut (g ++ ["="]) (wf ++ vf) = Some wg) by (rewrite <- Hf; exact Eg).
      assert (H2 : cut (f ++ ["="]) (wg ++ vg) = Some wf) by (rewrite <- Hg; exact Ef).
      destruct (cut_app_none _ _ _ _ Egf H1) as [z1 Hz1].
      destruct (cut_app_none _ _ _ _ Efg H2) as [z2 Hz2].
      assert (Heq : wf = wg).
      { apply (app_prefix_eq wf wg vf vg); [congruence|].
        apply (f_equal (@length ascii)) in Hz1, Hz2. rewrite length_app in Hz1, Hz2. lia. }
      rewrite <- Heq in Eg. rewrite (cut_self _ _ _ Eg) in Egf. discriminate.
  - rewrite (step f g wf Ef). unfold seg_sub. rewrite Ef.
    destruct (cut (g ++ ["="]) wf) as [x|] eqn:Egf; [|reflexivity].
    destruct (cut_prefix _ _ _ Ef) as [vf Hf].
    pose proof (cut_app_some _ _ vf _ Egf) as H1. rewrite <- Hf, Eg in H1. discriminate.
  - rewrite (step g f wg Eg). unfold seg_sub. rewrite Eg.
    destruct (cut (f ++ ["="]) wg) as [y|] eqn:Efg; [|reflexivity].
    destruct (cut_prefix _ _ _ Eg) as [vg Hg].
    pose proof (cut_app_some _ _ vg _ Efg) as H2. rewrite <- Hg, Ef in H2. discriminate.
  - unfold seg_sub. rewrite Ef, Eg. reflexivity.
Qed.

Lemma seg_filter_permutation redaction fields fields' :
  has_char "=" redaction = false ->
  Permutation fields fields' ->
  forall s, seg_filter fields redaction s = seg_filter fields' redaction s.
Proof.
  intros HR Hp. induction Hp as [| f l l' _ IH | f g l | l l' l'' _ IH1 _ IH2]; intros s.
  - reflexivity.
  - unfold seg_filter in *. cbn [fold_left]. apply IH.
  - unfold seg_filter. cbn [fold_left]. rewrite (seg_sub_commute redaction g f s HR).
    reflexivity.
  - rewrite IH1. apply IH2.
Qed.

(** ** From segments to messages *)

Lemma join_cons sep x y l : join sep (x :: y :: l) = x ++ sep ++ join sep (y :: l).
Proof. reflexivity. Qed.

Lemma join_cons_char sep c s l : join sep ((c :: s) :: l) = c :: join sep (s :: l).
Proof. destruct l; reflexivity. Qed.

Lemma join_split_semi m : join [";"] (split_semi m) = m.
Proof.
  induction m as [|c m IH]; [reflexivity|]. cbn [split_semi].
  destruct (c =? ";") eqn:E.
  - apply Ascii.eqb_eq in E. subst c. destruct (split_semi m) as [|s l] eqn:Es.
    + simpl in IH. subst m. discriminate.
    + rewrite join_cons. simpl. f_equal. exact IH.
  - destruct (split_semi m) as [|s l] eqn:Es.
    + simpl in IH. subst m. reflexivity.
    + rewrite join_cons_char. f_equal. exact IH.
Qed.

Lemma split_semi_no_semi m : Forall (fun s => has_char ";" s = false) (split_semi m).
Proof.
  induction m as [|c m IH]; simpl.
  - repeat constructor.
  - destruct (c =? ";") eqn:E.
    + constructor; [reflexivity | exact IH].
    + destruct (split_semi m) as [|s l].
      * repeat constructor. simpl. rewrite Ascii.eqb_sym, E. reflexivity.
      * inversion IH as [|? ? Hs Hl]; subst. constructor; [|exact Hl].
        simpl. rewrite Ascii.eqb_sym, E. exact Hs.
Qed.

Lemma skip_value_seg s tail :
  has_char ";" s = false -> seg_end tail -> skip_value (s ++ tail) = tail.
Proof.
  intros Hs Ht. induction s as [|c s IH]; simpl.
  - destruct Ht as [-> | [t ->]]; reflexivity.
  - simpl in Hs. apply orb_false_iff in Hs as [Hc Hs]. unfold not_semi.
    rewrite Ascii.eqb_sym, Hc. simpl. apply IH. exact Hs.
Qed.

Lemma startswith_seg p s tail :
  has_char ";" p = false -> seg_end tail ->
  startswith p (s ++ tail) = startswith p s.
Proof.
  intros Hp Ht. destruct (startswith p s) eqn:E.
  - apply startswith_app_mono. exact E.
  - destruct (startswith p (s ++ tail)) eqn:E'; [|reflexivity].
    destruct (startswith_app_over _ _ _ E' E) as (z1 & z2 & -> & Hz & Hne).
    destruct Ht as [-> | [t ->]].
    + destruct z1; [congruence | discriminate].
    + destruct z1 as [|d z1]; [congruence|]. injection Hz as <- _.
      rewrite has_char_app in Hp. simpl in Hp. rewrite ?Ascii.eqb_refl in Hp.
      rewrite orb_true_r in Hp. discriminate.
Qed.

Lemma pattern_no_semi field :
  has_char ";" field = false -> has_char ";" (field ++ ["="]) = false.
Proof. intros H. rewrite has_char_app, H. reflexivity. Qed.

Lemma pattern_not_empty field : startswith (field ++ ["="]) [] = false.
Proof. destruct field; reflexivity. Qed.

Lemma re_sub_semi field repl t :
  has_char ";" field = false ->
  re_sub field repl (";" :: t) = ";" :: re_sub field repl t.
Proof.
  intros H. rewrite re_sub_cons. unfold match_field.
  destruct field as [|a f]; simpl.
  - change ("=" =? ";") with false. reflexivity.
  - simpl in H. apply orb_false_iff in H as [Ha _].
    rewrite Ascii.eqb_sym, Ha. reflexivity.
Qed.

Lemma seg_sub_cons redaction field c s :
  startswith (field ++ ["="]) (c :: s) = false ->
  seg_sub redaction field (c :: s) = c :: seg_sub redaction field s.
Proof.
  intros E. unfold seg_sub. cbn [cut]. rewrite E.
  destruct (cut (field ++ ["="]) s); reflexivity.
Qed.

Lemma re_sub_seg field redaction s tail :
  has_char ";" field = false -> has_char ";" s = false -> seg_end tail ->
  re_sub field (field ++ ["="] ++ redaction) (s ++ tail)
  = seg_sub redaction field s ++ re_sub field (field ++ ["="] ++ redaction) tail.
Proof.
  intros Hf Hs Ht. induction s as [|c s IH].
  - unfold seg_sub. simpl. rewrite pattern_not_empty. reflexivity.
  - change ((c :: s) ++ tail) with (c :: s ++ tail). rewrite re_sub_cons.
    unfold match_field. change (c :: s ++ tail) with ((c :: s) ++ tail).
    destruct (startswith (field ++ ["="]) (c :: s)) eqn:E.
    + destruct (startswith_inv _ _ E) as [r Hr]. rewrite Hr, <- app_assoc.
      rewrite strip_prefix_app. rewrite skip_value_seg; [|
        rewrite Hr, has_char_app in Hs; apply orb_false_iff in Hs; apply Hs | exact Ht].
      unfold seg_sub. rewrite (cut_start _ _ (startswith_app _ _)).
      rewrite <- !app_assoc. reflexivity.
    + pose proof (startswith_seg _ (c :: s) tail (pattern_no_semi _ Hf) Ht) as E'.
      rewrite E in E'. apply strip_prefix_startswith in E'. rewrite E'.
      rewrite (seg_sub_cons _ _ _ _ E). simpl. f_equal. apply IH.
      simpl in Hs. apply orb_false_iff in Hs. apply Hs.
Qed.

Lemma re_sub_join field redaction segs :
  has_char ";" field = false ->
  Forall (fun s => has_char ";" s = false) segs ->
  re_sub field (field ++ ["="] ++ redaction) (join [";"] segs)
  = join [";"] (map (seg_sub redaction field) segs).
Proof.
  intros Hf Hsegs. induction Hsegs as [|x l Hx Hl IH].
  - reflexivity.
  - destruct l as [|y l].
    + cbn [join map]. rewrite <- (app_nil_r x) at 1.
      rewrite (re_sub_seg _ _ _ [] Hf Hx (or_introl eq_refl)).
      simp re_sub. apply app_nil_r.
    + rewrite join_cons. cbn [map]. rewrite join_cons.
      rewrite (re_sub_seg _ _ _ ([";"] ++ join [";"] (y :: l)) Hf Hx
                 (or_intror (ex_intro _ _ eq_refl))).
      cbn [app]. rewrite (re_sub_semi _ _ _ Hf). do 2 f_equal. exact IH.
Qed.

Lemma cut_no_semi p s w :
  cut p s = Some w -> has_char ";" s = false -> has_char ";" w = false.
Proof.
  intros H Hs. destruct (cut_prefix _ _ _ H) as [v ->].
  rewrite has_char_app in Hs. apply orb_false_iff in Hs. apply Hs.
Qed.

Lemma seg_sub_no_semi redaction field s :
  has_char ";" redaction = false -> has_char ";" s = false ->
  has_char ";" (seg_sub redaction field s) = false.
Proof.
  intros HR Hs. unfold seg_sub. destruct (cut (field ++ ["="]) s) as [w|] eqn:E.
  - rewrite has_char_app, (cut_no_semi _ _ _ E Hs), HR. reflexivity.
  - exact Hs.
Qed.

(** On a message of semicolon-free segments [filter_datum] filters each
    segment on its own. *)
Lemma filter_datum_segments fields redaction separator :
  modelled fields redaction = true ->
  Forall (fun f => has_char ";" f = false) fields ->
  has_char ";" redaction = false ->
  forall segs,
    Forall (fun s => has_char ";" s = false) segs ->
    filter_datum fields redaction (join [";"] segs) separator
    = Some (join [";"] (map (seg_filter fields redaction) segs)).
Proof.
  intros Hm Hf HR. induction fields as [|f fields IH]; intros segs Hsegs.
  - simpl. rewrite map_id. reflexivity.
  - unfold modelled in Hm. cbn [forallb] in Hm.
    apply andb_true_iff in Hm as [Hmf Hm].
    inversion Hf as [|? ? Hf1 Hf2]; subst.
    cbn [filter_datum]. unfold sub_field. rewrite Hmf.
    rewrite (re_sub_join _ _ _ Hf1 Hsegs).
    rewrite (IH Hm Hf2).
    + rewrite map_map. reflexivity.
    + apply Forall_map. revert Hsegs. apply Forall_impl.
      intros s Hs. apply seg_sub_no_semi; assumption.
Qed.

Lemma forallb_no_semi fields :
  forallb no_semi fields = true -> Forall (fun f => has_char ";" f = false) fields.
Proof.
  intros H. apply Forall_forall. intros f Hin.
  rewrite forallb_forall in H. specialize (H f Hin). unfold no_semi in H.
  destruct (has_char ";" f); [discriminate | reflexivity].
Qed.

(** ** Messages of [key=value] pairs *)

Lemma endswith_refl a : endswith a a = true.
Proof. destruct a; cbn [endswith]; rewrite str_eqb_refl; reflexivity. Qed.

Lemma endswith_app tl k f : endswith k f = true -> endswith (tl ++ k) f = true.
Proof.
  intros H. induction tl as [|c tl IH]; [exact H|].
  change ((c :: tl) ++ k) with (c :: tl ++ k). cbn [endswith].
  rewrite IH. apply orb_true_r.
Qed.

Lemma str_eqb_cons a s b t : str_eqb (a :: s) (b :: t) = (a =? b) && str_eqb s t.
Proof.
  destruct (a =? b) eqn:E; simpl.
  - apply Ascii.eqb_eq in E. subst b. destruct (str_eqb s t) eqn:E'.
    + apply str_eqb_eq in E'. subst t. apply str_eqb_refl.
    + destruct (str_eqb (a :: s) (a :: t)) eqn:E''; [|reflexivity].
      apply str_eqb_eq in E''. injection E'' as ->. rewrite str_eqb_refl in E'. discriminate.
  - destruct (str_eqb (a :: s) (b :: t)) eqn:E'; [|reflexivity].
    apply str_eqb_eq in E'. injection E' as -> _. rewrite Ascii.eqb_refl in E. discriminate.
Qed.

Lemma startswith_absent field v :
  has_char "=" v = false -> startswith (field ++ ["="]) v = false.
Proof.
  intros Hv. destruct (startswith (field ++ ["="]) v) eqn:E; [|reflexivity].
  pose proof (startswith_has_char "=" _ _ E (pattern_has_eq field)). congruence.
Qed.

(** In [a=v] the pattern of a field matches at the start for the key [a] only. *)
Lemma startswith_pair field a v :
  has_char "=" a = false -> has_char "=" v = false ->
  startswith (field ++ ["="]) (a ++ "=" :: v) = str_eqb a field.
Proof.
  revert field; induction a as [|x a IH]; intros field Ha Hv.
  - destruct field as [|c f].
    + reflexivity.
    + change (startswith ((c :: f) ++ ["="]) ([] ++ "=" :: v))
        with ((c =? "=") && startswith (f ++ ["="]) v).
      rewrite (startswith_absent f v Hv), andb_false_r. reflexivity.
  - simpl in Ha. apply orb_false_iff in Ha as [Hx Ha].
    destruct field as [|c f].
    + change (startswith ([] ++ ["="]) ((x :: a) ++ "=" :: v)) with (("=" =? x) && true).
      rewrite Hx. reflexivity.
    + change (startswith ((c :: f) ++ ["="]) ((x :: a) ++ "=" :: v))
        with ((c =? x) && startswith (f ++ ["="]) (a ++ "=" :: v)).
      rewrite (IH f Ha Hv), str_eqb_cons, (Ascii.eqb_sym x c). reflexivity.
Qed.

Lemma cut_pair field a v :
  has_char "=" a = false -> has_char "=" v = false ->
  cut (field ++ ["="]) (a ++ "=" :: v)
  = if endswith a field then Some (a ++ ["="]) else None.
Proof.
  intros Ha Hv. induction a as [|x a IH].
  - pose proof (startswith_pair field [] v Ha Hv) as E0. cbn [app] in E0.
    cbn [app cut endswith]. rewrite E0, orb_false_r. destruct (str_eqb [] field) eqn:E.
    + apply str_eqb_eq in E. subst field. reflexivity.
    + rewrite (cut_absent field v Hv). reflexivity.
  - change ((x :: a) ++ "=" :: v) with (x :: a ++ "=" :: v). cbn [cut endswith].
    change (x :: a ++ "=" :: v) with ((x :: a) ++ "=" :: v).
    rewrite (startswith_pair field (x :: a) v Ha Hv).
    destruct (str_eqb (x :: a) field) eqn:E.
    + apply str_eqb_eq in E. subst field. reflexivity.
    + simpl in Ha. apply orb_false_iff in Ha as [_ Ha].
      rewrite (IH Ha). cbn [orb]. destruct (endswith a field); reflexivity.
Qed.

Lemma seg_sub_pair redaction field a v :
  has_char "=" a = false -> has_char "=" v = false ->
  seg_sub redaction field (a ++ "=" :: v)
  = a ++ "=" :: (if endswith a field then redaction else v).
Proof.
  intros Ha Hv. unfold seg_sub. rewrite (cut_pair field a v Ha Hv).
  destruct (endswith a field); [|reflexivity].
  rewrite <- app_assoc. reflexivity.
Qed.

Lemma seg_filter_pair fields redaction a :
  has_char "=" a = false -> has_char "=" redaction = false ->
  forall v, has_char "=" v = false ->
  seg_filter fields redaction (a ++ "=" :: v)
  = a ++ "=" :: (if hit fields a then redaction else v).
Proof.
  intros Ha HR. induction fields as [|f fields IH]; intros v Hv.
  - reflexivity.
  - unfold seg_filter, hit in *. cbn [fold_left existsb].
    rewrite (seg_sub_pair redaction f a v Ha Hv).
    destruct (endswith a f); cbn [orb].
    + rewrite (IH redaction HR). destruct (existsb (endswith a) fields); reflexivity.
    + apply IH. exact Hv.
Qed.

Lemma join_app_head sep a y rest :
  join sep ((a ++ y) :: rest) = a ++ join sep (y :: rest).
Proof. destruct rest; cbn [join]; [reflexivity | apply eq_sym, app_assoc]. Qed.

(** A separator [";" ++ tl] joins like [";"] with [tl] put before each
    item after the first. *)
Lemma join_sep_tail tl x xs :
  join (";" :: tl) (x :: xs) = join [";"] (x :: map (app tl) xs).
Proof.
  revert x; induction xs as [|y xs IH]; intros x; [reflexivity|].
  rewrite join_cons. cbn [map]. rewrite join_cons, IH, join_app_head.
  reflexivity.
Qed.

Lemma clean_inv s : clean s = true -> has_char ";" s = false /\ has_char "=" s = false.
Proof.
  unfold clean, no_semi, no_eq. intros H. apply andb_true_iff in H as [H1 H2].
  destruct (has_char ";" s), (has_char "=" s); try discriminate. split; reflexivity.
Qed.

Lemma pair_seg_no_semi ctx p :
  has_char ";" ctx = false -> clean_pair p = true ->
  has_char ";" (ctx ++ pair_text p) = false.
Proof.
  intros Hc Hp. apply andb_true_iff in Hp as [Hk Hv].
  apply clean_inv in Hk as [Hk _]. apply clean_inv in Hv as [Hv _].
  unfold pair_text. rewrite !has_char_app, Hc, Hk, Hv. reflexivity.
Qed.

Lemma seg_filter_pair_text fields redaction ctx p :
  has_char "=" ctx = false -> has_char "=" redaction = false ->
  clean_pair p = true ->
  seg_filter fields redaction (ctx ++ pair_text p)
  = ctx ++ pair_text (redact_pair fields redaction ctx p).
Proof.
  intros Hc HR Hp. apply andb_true_iff in Hp as [Hk Hv].
  apply clean_inv in Hk as [_ Hk]. apply clean_inv in Hv as [_ Hv].
  unfold pair_text, redact_pair. cbn [fst snd app]. rewrite app_assoc.
  rewrite seg_filter_pair; [| rewrite has_char_app, Hc, Hk; reflexivity | exact HR | exact Hv].
  rewrite <- app_assoc. reflexivity.
Qed.

(** What [filter_datum] does to a message of pairs joined by a separator
    that starts with a semicolon. *)
Lemma filter_datum_pairs fields redaction tl pairs separator :
  modelled fields redaction = true ->
  forallb no_semi fields = true ->
  clean redaction = true ->
  clean tl = true ->
  forallb clean_pair pairs = true ->
  filter_datum fields redaction (render (";" :: tl) pairs) separator
  = Some (render (";" :: tl) (redact_pairs fields redaction tl pairs)).
Proof.
  intros Hm Hf HR Htl Hp.
  apply clean_inv in HR as [HR1 HR2]. apply clean_inv in Htl as [Ht1 Ht2].
  apply forallb_no_semi in Hf.
  destruct pairs as [|p ps].
  - change (render (";" :: tl) []) with (join [";"] []).
    rewrite (filter_datum_segments _ _ separator Hm Hf HR1 [] (Forall_nil _)).
    reflexivity.
  - cbn [forallb] in Hp. apply andb_true_iff in Hp as [Hp Hps].
    rewrite forallb_forall in Hps.
    unfold render, redact_pairs. cbn [map]. rewrite !(join_sep_tail tl).
    rewrite (filter_datum_segments _ _ separator Hm Hf HR1).
    + cbn [map].
      pose proof (seg_filter_pair_text fields redaction [] p eq_refl HR2 Hp) as E0.
      cbn [app] in E0. rewrite E0, !map_map.
      rewrite (map_ext_in _ (fun q => tl ++ pair_text (redact_pair fields redaction tl q))).
      * reflexivity.
      * intros q Hq.
        apply (seg_filter_pair_text fields redaction tl q Ht2 HR2 (Hps q Hq)).
    + constructor.
      * apply (pair_seg_no_semi [] p eq_refl Hp).
      * rewrite map_map. apply Forall_forall. intros s Hs.
        apply in_map_iff in Hs as (q & <- & Hq).
        apply (pair_seg_no_semi tl q Ht1 (Hps q Hq)).
Qed.

(** A key among the fields is ended by a field, whatever stands before it. *)
Lemma mem_hit fields ctx k : mem k fields = true -> hit fields (ctx ++ k) = true.
Proof.
  unfold mem, hit. intros H. apply existsb_exists in H as (f & Hin & E).
  apply str_eqb_eq in E. subst f. apply existsb_exists. exists k.
  split; [exact Hin | apply endswith_app, endswith_refl].
Qed.

(** One pair is rewritten as by its key alone exactly when it is covered. *)
Lemma redact_pair_covered fields redaction ctx p :
  redact_pair fields redaction ctx p
  = (fst p, if mem (fst p) fields then redaction else snd p)
  <-> covered_pair fields redaction ctx p = true.
Proof.
  unfold redact_pair, covered_pair.
  destruct (mem (fst p) fields) eqn:Em.
  - rewrite (mem_hit fields ctx (fst p) Em). split; reflexivity.
  - destruct (hit fields (ctx ++ fst p)); cbn [implb orb].
    + rewrite str_eqb_eq. split; [intros [= ->]; reflexivity | intros ->; reflexivity].
    + split; reflexivity.
Qed.

Lemma redact_pairs_covered fields redaction tl pairs :
  redact_pairs fields redaction tl pairs = redact_keys fields redaction pairs
  <-> covered fields redaction tl pairs = true.
Proof.
  unfold redact_pairs, redact_keys, covered.
  destruct pairs as [|p ps]; [split; reflexivity|]. cbn [map].
  rewrite andb_true_iff, forallb_forall. split.
  - intros [= Hp Hps]. split.
    + apply redact_pair_covered. unfold redact_pair. cbn [app]. f_equal. exact Hp.
    + intros q Hq. apply redact_pair_covered.
      assert (Hmap : forall l : list (str * str),
                map (redact_pair fields redaction tl) l
                = map (fun p => (fst p, if mem (fst p) fields then redaction else snd p)) l ->
                forall q, In q l ->
                  redact_pair fields redaction tl q
                  = (fst q, if mem (fst q) fields then redaction else snd q)).
      { induction l as [|x l IH]; intros E q0 Hq0; [destruct Hq0|].
        cbn [map] in E. injection E as E1 E2. destruct Hq0 as [<- | Hq0].
        - unfold redact_pair. f_equal. exact E1.
        - exact (IH E2 _ Hq0). }
      exact (Hmap ps Hps q Hq).
  - intros [Hp Hps]. f_equal.
    + apply redact_pair_covered. exact Hp.
    + apply map_ext_in. intros q Hq. apply redact_pair_covered. exact (Hps q Hq).
Qed.

(** *** A message of pairs is read back in one way *)

Lemma first_semi_inj (x y a b : str) :
  has_char ";" x = false -> has_char ";" y = false ->
  x ++ ";" :: a = y ++ ";" :: b -> x = y /\ a = b.
Proof.
  revert y; induction x as [|c x IH]; intros [|d y] Hx Hy H; cbn [app] in H.
  - injection H as ->. split; reflexivity.
  - injection H as <- _. simpl in Hy. rewrite ?Ascii.eqb_refl in Hy. discriminate.
  - injection H as -> _. simpl in Hx. rewrite ?Ascii.eqb_refl in Hx. discriminate.
  - injection H as -> H. simpl in Hx, Hy.
    apply orb_false_iff in Hx as [_ Hx]. apply orb_false_iff in Hy as [_ Hy].
    destruct (IH y Hx Hy H) as [-> ->]. split; reflexivity.
Qed.

Lemma join_semi_inj (l1 l2 : list str) :
  Forall (fun s => has_char ";" s = false) l1 ->
  Forall (fun s => has_char ";" s = false) l2 ->
  length l1 = length l2 ->
  join [";"] l1 = join [";"] l2 -> l1 = l2.
Proof.
  intros H1. revert l2. induction H1 as [|x l1 Hx Hl1 IH]; intros l2 H2 L E.
  - destruct l2; [reflexivity | discriminate].
  - destruct l2 as [|y l2]; [discriminate|].
    inversion H2 as [|? ? Hy Hl2]; subst. injection L as L.
    destruct l1 as [|x' l1]; destruct l2 as [|y' l2]; try discriminate.
    + cbn [join] in E. subst y. reflexivity.
    + rewrite !join_cons in E. cbn [app] in E.
      destruct (first_semi_inj _ _ _ _ Hx Hy E) as [-> E'].
      f_equal. apply IH; [exact Hl2 | exact L | exact E'].
Qed.

(** Two lists of pairs with the same keys that give the same message have
    the same values. *)
Lemma render_inj tl (ps qs : list (str * str)) :
  has_char ";" tl = false ->
  forallb clean_pair ps = true -> forallb clean_pair qs = true ->
  map fst ps = map fst qs ->
  render (";" :: tl) ps = render (";" :: tl) qs -> ps = qs.
Proof.
  intros Htl Hps Hqs Hk E.
  assert (Hseg : forall l, forallb clean_pair l = true ->
            Forall (fun s => has_char ";" s = false) (map (fun q => tl ++ pair_text q) l)).
  { intros l Hl. apply Forall_forall. intros s Hs.
    apply in_map_iff in Hs as (q & <- & Hq). rewrite forallb_forall in Hl.
    apply (pair_seg_no_semi tl q Htl (Hl q Hq)). }
  assert (Hval : forall ctx (p q : str * str),
            fst p = fst q -> ctx ++ pair_text p = ctx ++ pair_text q -> p = q).
  { intros ctx [k v] [k' v'] Hfst Hpq. cbn [fst] in Hfst. subst k'.
    unfold pair_text in Hpq. cbn [fst snd] in Hpq.
    apply app_inv_head in Hpq. apply app_inv_head in Hpq.
    apply app_inv_head in Hpq. subst v'. reflexivity. }
  destruct ps as [|p ps]; destruct qs as [|q qs]; try discriminate; [reflexivity|].
  cbn [map] in Hk. injection Hk as Hk0 Hk.
  cbn [forallb] in Hps, Hqs.
  apply andb_true_iff in Hps as [Hp Hps]. apply andb_true_iff in Hqs as [Hq Hqs].
  unfold render in E. cbn [map] in E. rewrite !(join_sep_tail tl), !map_map in E.
  apply join_semi_inj in E.
  - injection E as E0 E. f_equal; [exact (Hval [] p q Hk0 E0)|].
    clear Hps Hqs Hp Hq E0 Hk0. revert qs Hk E.
    induction ps as [|a ps IH]; intros [|b qs] Hk E; try discriminate; [reflexivity|].
    cbn [map] in Hk, E. injection Hk as Hk0 Hk. injection E as E0 E.
    f_equal; [exact (Hval tl a b Hk0 E0) | exact (IH qs Hk E)].
  - constructor; [exact (pair_seg_no_semi [] p eq_refl Hp) | exact (Hseg ps Hps)].
  - constructor; [exact (pair_seg_no_semi [] q eq_refl Hq) | exact (Hseg qs Hqs)].
  - cbn [length]. rewrite !length_map. f_equal.
    apply (f_equal (@length str)) in Hk. rewrite !length_map in Hk. exact Hk.
Qed.

Lemma redact_pairs_clean fields redaction tl pairs :
  clean redaction = true -> forallb clean_pair pairs = true ->
  forallb clean_pair (redact_pairs fields redaction tl pairs) = true.
Proof.
  intros HR Hp.
  assert (H1 : forall ctx p, clean_pair p = true ->
            clean_pair (redact_pair fields redaction ctx p) = true).
  { intros ctx p Hc. unfold clean_pair, redact_pair in *. cbn [fst snd].
    apply andb_true_iff in Hc as [Hk Hv]. rewrite Hk.
    destruct (hit fields (ctx ++ fst p)); assumption. }
  destruct pairs as [|p ps]; [reflexivity|]. cbn [redact_pairs forallb] in *.
  apply andb_true_iff in Hp as [Hp Hps]. rewrite (H1 [] p Hp). cbn [andb].
  rewrite forallb_forall in *. intros q Hq.
  apply in_map_iff in Hq as (q0 & <- & Hq0). apply H1, Hps, Hq0.
Qed.

Lemma redact_keys_clean fields redaction pairs :
  clean redaction = true -> forallb clean_pair pairs = true ->
  forallb clean_pair (redact_keys fields redaction pairs) = true.
Proof.
  intros HR Hp. unfold redact_keys. rewrite forallb_forall in *. intros q Hq.
  apply in_map_iff in Hq as (p & <- & Hin). specialize (Hp p Hin).
  unfold clean_pair in *. cbn [fst snd]. apply andb_true_iff in Hp as [Hk Hv].
  rewrite Hk. destruct (mem (fst p) fields); assumption.
Qed.

Lemma redact_keys_fst fields redaction tl pairs :
  map fst (redact_pairs fields redaction tl pairs)
  = map fst (redact_keys fields redaction pairs).
Proof.
  unfold redact_pairs, redact_keys. destruct pairs as [|p ps]; [reflexivity|].
  cbn [map fst redact_pair]. f_equal. rewrite !map_map. reflexivity.
Qed.

Lemma seg_filter_no_semi fields redaction s :
  has_char ";" redaction = false -> has_char ";" s = false ->
  has_char ";" (seg_filter fields redaction s) = false.
Proof.
  intros HR. revert s. unfold seg_filter.
  induction fields as [|f fields IH]; intros s Hs; [exact Hs|].
  cbn [fold_left]. apply IH. apply seg_sub_no_semi; assumption.
Qed.

Lemma modelled_permutation fields fields' redaction :
  Permutation fields fields' ->
  modelled fields redaction = true -> modelled fields' redaction = true.
Proof.
  unfold modelled. intros Hp H. rewrite forallb_forall in *.
  intros f Hf. apply H. apply (Permutation_in _ (Permutation_sym Hp) Hf).
Qed.

Lemma no_semi_permutation (fields fields' : list str) :
  Permutation fields fields' ->
  forallb no_semi fields = true -> forallb no_semi fields' = true.
Proof.
  intros Hp H. rewrite forallb_forall in *.
  intros f Hf. apply H. apply (Permutation_in _ (Permutation_sym Hp) Hf).
Qed.

Lemma contains_cons p c m :
  contains p (c :: m) = startswith p (c :: m) || contains p m.
Proof. reflexivity. Qed.

(** Without a match the text is copied. *)
Lemma re_sub_absent field repl m :
  contains (field ++ ["="]) m = false -> re_sub field repl m = m.
Proof.
  induction m as [|c m IH]; intros H.
  - simp re_sub. reflexivity.
  - rewrite contains_cons in H. apply orb_false_iff in H as [Hs Hc].
    rewrite re_sub_cons. unfold match_field.
    apply strip_prefix_startswith in Hs. rewrite Hs, (IH Hc). reflexivity.
Qed.

Lemma filter_datum_returns fields redaction message separator :
  modelled fields redaction = true ->
  exists message', filter_datum fields redaction message separator = Some message'.
Proof.
  revert message; induction fields as [|f fields IH]; intros message H.
  - exists message. reflexivity.
  - unfold modelled in H. cbn [forallb] in H. apply andb_true_iff in H as [Hf H].
    cbn [filter_datum]. unfold sub_field. rewrite Hf. apply IH. exact H.
Qed.

(** The separator argument does not reach the result. *)
Lemma filter_datum_separator fields redaction message sep sep' :
  filter_datum fields redaction message sep
  = filter_datum fields redaction message sep'.
Proof.
  revert message; induction fields as [|f fields IH]; intros message; [reflexivity|].
  cbn [filter_datum]. destruct (sub_field f redaction message); [apply IH | reflexivity].
Qed.

Lemma message_segments message :
  exists segs, message = join [";"] segs
               /\ Forall (fun s => has_char ";" s = false) segs.
Proof.
  exists (split_semi message). split.
  - symmetry. apply join_split_semi.
  - apply split_semi_no_semi.
Qed.

Lemma no_semi_inv s : no_semi s = true -> has_char ";" s = false.
Proof. unfold no_semi. destruct (has_char ";" s); [discriminate | reflexivity]. Qed.

(** * The claims *)

(** ** Redaction of the values (C1, C2, C3) *)



(** A field may be the end of another key when that key is a field too:
    with the fields [name] and [surname] the three pairs are rewritten as
    C1 says. *)
Example filter_datum_name_surname :
  covered [s_ "name"; s_ "surname"] REDACTION (s_ " ")
    [(s_ "name", s_ "Al"); (s_ "surname", s_ "Capone"); (s_ "ip", s_ "1.2.3.4")]
  = true
  /\ filter_datum [s_ "name"; s_ "surname"] (s_ "***")
       (s_ "name=Al; surname=Capone; ip=1.2.3.4") (s_ "; ")
     = Some (s_ "name=***; surname=***; ip=1.2.3.4").
Proof. split; vm_compute; reflexivity. Qed.





(** C3 fails on the code: with the separator ["|"] the value of [email]
    should end at the next ["|"], but the pattern stops at [';'] only and
    the rest of the message is taken as the value. *)
Theorem filter_datum_bar_separator :
  filter_datum [s_ "email"] (s_ "***") (s_ "email=a@b.c|phone=555-1234") (s_ "|")
  = Some (s_ "email=***")
  /\ s_ "email=***" <> s_ "email=***|phone=555-1234".
Proof. split; [vm_compute; reflexivity | vm_compute; discriminate]. Qed.

(** ** Messages without the fields (C9) and the semicolons (C10) *)

(** C9, as amended.  For field names without regular-expression syntax and
    a redaction without backslash: when no field followed by ['='] occurs in
    the message, [filter_datum] returns, and returns the message
    unchanged. *)
Theorem filter_datum_absent_fields fields redaction message separator :
  modelled fields redaction = true ->
  absent fields message = true ->
  filter_datum fields redaction message separator = Some message.
Proof.
  unfold modelled, absent. induction fields as [|f fields IH]; intros Hm Ha.
  - reflexivity.
  - cbn [forallb] in *. apply andb_true_iff in Hm as [Hf Hm].
    apply andb_true_iff in Ha as [Hc Ha]. apply negb_true_iff in Hc.
    cbn [filter_datum]. unfold sub_field. rewrite Hf, (re_sub_absent _ _ _ Hc).
    apply IH; assumption.
Qed.

Lemma filter_datum_absent_fields_access_log :
  filter_datum PII_FIELDS REDACTION (s_ "GET /index.html 200 in 3ms") SEPARATOR
  = Some (s_ "GET /index.html 200 in 3ms").
Proof.
  exact (filter_datum_absent_fields PII_FIELDS REDACTION
           (s_ "GET /index.html 200 in 3ms") SEPARATOR eq_refl eq_refl).
Defined.

(** C9 as stated fails: a field is read as a regular expression.  The field
    [user.name] followed by ['='] does not occur in the line, which is no
    row of pairs; its dot matches the ['_'] of [user_name], and the line is
    rewritten. *)
Lemma filter_datum_rewrites_absent_field :
  absent [s_ "user.name"] (s_ "GET /index.html?user_name=bob 200") = true
  /\ filter_datum [s_ "user.name"] (s_ "***")
       (s_ "GET /index.html?user_name=bob 200") (s_ "; ")
     = Some (s_ "GET /index.html?user.name=***").
Proof. split; vm_compute; reflexivity. Qed.

(** C10, as amended.  When the redaction holds no semicolon and no
    backslash, [filter_datum] returns a message with as many semicolons as
    the one it was given, for every list of field names without
    regular-expression syntax (also names with a semicolon), every message
    and every separator. *)
Theorem filter_datum_preserves_semicolons fields redaction message separator :
  modelled fields redaction = true ->
  has_char ";" redaction = false ->
  exists message',
    filter_datum fields redaction message separator = Some message'
    /\ count_char ";" message' = count_char ";" message.
Proof.
  intros Hm HR. revert message Hm.
  induction fields as [|f fields IH]; intros message Hm.
  - exists message. split; reflexivity.
  - unfold modelled in Hm. cbn [forallb] in Hm. apply andb_true_iff in Hm as [Hf Hm].
    cbn [filter_datum]. unfold sub_field. rewrite Hf.
    destruct (IH (re_sub f (f ++ ["="] ++ redaction) message) Hm) as (m' & E & Hc).
    exists m'. split; [exact E|]. rewrite Hc. apply re_sub_count_semi. exact HR.
Qed.

Lemma filter_datum_preserves_semicolons_row :
  exists message',
    filter_datum PII_FIELDS REDACTION
      (s_ "name=Bob;email=bob@dylan.com;ssn=000-123-0000;password=bobby2019;") (s_ ";")
    = Some message'
    /\ count_char ";" message' = 4.
Proof.
  exact (filter_datum_preserves_semicolons PII_FIELDS REDACTION
           (s_ "name=Bob;email=bob@dylan.com;ssn=000-123-0000;password=bobby2019;")
           (s_ ";") eq_refl eq_refl).
Defined.

(** C10 as stated fails: the dot of the field [a.b] matches the semicolon
    of the message, which is replaced with the match; one semicolon goes in
    and none comes out, though the redaction holds none. *)
Lemma filter_datum_drops_semicolon :
  filter_datum [s_ "a.b"] (s_ "***") (s_ "a;b=1") (s_ "; ") = Some (s_ "a.b=***")
  /\ count_char ";" (s_ "a;b=1") = 1
  /\ count_char ";" (s_ "a.b=***") = 0.
Proof. split; [|split]; vm_compute; reflexivity. Qed.

(** ** Redacting twice and the order of the fields (C6, C7) *)

(** C6, as amended.  For field names without regular-expression syntax or
    [';'] and a redaction without [';'] or backslash, redacting the redacted
    message again returns it unchanged. *)
Theorem filter_datum_idempotent fields redaction message separator :
  modelled fields redaction = true ->
  forallb no_semi fields = true ->
  no_semi redaction = true ->
  exists once,
    filter_datum fields redaction message separator = Some once
    /\ filter_datum fields redaction once separator = Some once.
Proof.
  intros Hm Hf HR. apply forallb_no_semi in Hf. apply no_semi_inv in HR.
  destruct (message_segments message) as (segs & -> & Hsegs).
  exists (join [";"] (map (seg_filter fields redaction) segs)). split.
  - apply filter_datum_segments; assumption.
  - rewrite (filter_datum_segments _ _ separator Hm Hf HR).
    + rewrite map_map. do 2 f_equal. apply map_ext. intros s.
      apply seg_filter_idempotent.
    + apply Forall_map. revert Hsegs. apply Forall_impl. intros s Hs.
      apply seg_filter_no_semi; assumption.
Qed.

Lemma filter_datum_idempotent_row :
  exists once,
    filter_datum PII_FIELDS (s_ "name=?")
      (s_ "name=Bob; email=bob@dylan.com; surname=Dylan") SEPARATOR = Some once
    /\ filter_datum PII_FIELDS (s_ "name=?") once SEPARATOR = Some once.
Proof.
  exact (filter_datum_idempotent PII_FIELDS (s_ "name=?")
           (s_ "name=Bob; email=bob@dylan.com; surname=Dylan") SEPARATOR
           eq_refl eq_refl eq_refl).
Defined.

(** C6 as stated fails: a redaction with a semicolon and a field in it is
    matched again by the second pass. *)
Lemma filter_datum_twice_differs :
  filter_datum [s_ "name"] (s_ "x;name=y") (s_ "name=bob") (s_ "; ")
  = Some (s_ "name=x;name=y")
  /\ filter_datum [s_ "name"] (s_ "x;name=y") (s_ "name=x;name=y") (s_ "; ")
     = Some (s_ "name=x;name=y;name=x;name=y")
  /\ s_ "name=x;name=y;name=x;name=y" <> s_ "name=x;name=y".
Proof.
  split; [vm_compute; reflexivity|].
  split; [vm_compute; reflexivity | vm_compute; discriminate].
Qed.

(** A field with a semicolon breaks idempotence as well. *)
Example filter_datum_twice_differs_field :
  filter_datum [s_ "X;b"; s_ "a"] (s_ "X") (s_ "a=1;b=2") (s_ "; ")
  = Some (s_ "a=X;b=2")
  /\ filter_datum [s_ "X;b"; s_ "a"] (s_ "X") (s_ "a=X;b=2") (s_ "; ")
     = Some (s_ "a=X;b=X").
Proof. split; vm_compute; reflexivity. Qed.

(** So does a field with regular-expression syntax: the dot of the field
    [.] matches the semicolon in the first pass and the dot of the first
    replacement in the second. *)
Example filter_datum_twice_differs_dot :
  filter_datum [s_ "."] (s_ "***") (s_ "id=7;=x") (s_ "; ")
  = Some (s_ "i.=***.=***")
  /\ filter_datum [s_ "."] (s_ "***") (s_ "i.=***.=***") (s_ "; ")
     = Some (s_ "i.=***").
Proof. split; vm_compute; reflexivity. Qed.

(** C7, as amended.  For field names without regular-expression syntax or
    [';'] and a redaction without [';'], ['='] or backslash, two orderings
    of the same fields give the same message. *)
Theorem filter_datum_permutation fields fields' redaction message separator :
  Permutation fields fields' ->
  modelled fields redaction = true ->
  forallb no_semi fields = true ->
  clean redaction = true ->
  exists out,
    filter_datum fields redaction message separator = Some out
    /\ filter_datum fields' redaction message separator = Some out.
Proof.
  intros Hp Hm Hf HR. apply clean_inv in HR as [HR1 HR2].
  pose proof (modelled_permutation _ _ _ Hp Hm) as Hm'.
  pose proof (no_semi_permutation _ _ Hp Hf) as Hf'.
  apply forallb_no_semi in Hf, Hf'.
  destruct (message_segments message) as (segs & -> & Hsegs).
  exists (join [";"] (map (seg_filter fields redaction) segs)). split.
  - apply filter_datum_segments; assumption.
  - rewrite (filter_datum_segments _ _ separator Hm' Hf' HR1 segs Hsegs).
    do 2 f_equal. apply map_ext. intros s. symmetry.
    apply seg_filter_permutation; assumption.
Qed.

Lemma filter_datum_permutation_email_ssn :
  exists out,
    filter_datum [s_ "email"; s_ "ssn"] REDACTION
      (s_ "ssn=000-12-3456; email=a@b.c") SEPARATOR = Some out
    /\ filter_datum [s_ "ssn"; s_ "email"] REDACTION
         (s_ "ssn=000-12-3456; email=a@b.c") SEPARATOR = Some out.
Proof.
  exact (filter_datum_permutation [s_ "email"; s_ "ssn"] [s_ "ssn"; s_ "email"]
           REDACTION (s_ "ssn=000-12-3456; email=a@b.c") SEPARATOR
           (perm_swap _ _ _) eq_refl eq_refl eq_refl).
Defined.

(** C7 as stated fails: with a redaction that holds a field and ['='], the
    order of the fields shows in the result. *)
Lemma filter_datum_order_matters :
  filter_datum [s_ "email"; s_ "ssn"] (s_ "ssn=0") (s_ "email=x") (s_ "; ")
  = Some (s_ "email=ssn=ssn=0")
  /\ filter_datum [s_ "ssn"; s_ "email"] (s_ "ssn=0") (s_ "email=x") (s_ "; ")
     = Some (s_ "email=ssn=0")
  /\ s_ "email=ssn=ssn=0" <> s_ "email=ssn=0".
Proof.
  split; [vm_compute; reflexivity|].
  split; [vm_compute; reflexivity | vm_compute; discriminate].
Qed.

(** So it does with a redaction that holds a semicolon, where the value of
    a later match ends, and with a field that holds one. *)
Example filter_datum_order_matters_semicolon :
  filter_datum [s_ "email"; s_ "ssn"] (s_ ";") (s_ "email=ssn=") (s_ "; ")
  = Some (s_ "email=;")
  /\ filter_datum [s_ "ssn"; s_ "email"] (s_ ";") (s_ "email=ssn=") (s_ "; ")
     = Some (s_ "email=;;").
Proof. split; vm_compute; reflexivity. Qed.

Example filter_datum_order_matters_field :
  filter_datum [s_ "a"; s_ "a;"] [] (s_ "a=a;=a") (s_ "; ") = Some (s_ "a=;=a")
  /\ filter_datum [s_ "a;"; s_ "a"] [] (s_ "a=a;=a") (s_ "; ") = Some (s_ "a=;=").
Proof. split; vm_compute; reflexivity. Qed.

(** A field with regular-expression syntax makes the order show as well:
    the dot of the field [a.] matches the first ['='] of the message. *)
Example filter_datum_order_matters_dot :
  filter_datum [s_ "a"; s_ "a."] (s_ "***") (s_ "a==") (s_ "; ") = Some (s_ "a=***")
  /\ filter_datum [s_ "a."; s_ "a"] (s_ "***") (s_ "a==") (s_ "; ") = Some (s_ "a.=***").
Proof. split; vm_compute; reflexivity. Qed.

(** ** Construction of the formatter (C4) *)

(** C4, as amended.  The constructor checks nothing: for every list of
    fields, also one with an empty or a repeated name, it returns a formatter
    that holds the format and that list, and [format] filters every record
    with that list. *)
Theorem RedactingFormatter_init_accepts_all (field_list : list str) :
  exists self,
    RedactingFormatter_init field_list = Returned self
    /\ fmt self = FORMAT
    /\ fields self = field_list
    /\ forall (LogRecord : Type) (base : str -> LogRecord -> str) (record : LogRecord),
         format base self record
         = filter_datum field_list REDACTION (base FORMAT record) SEPARATOR.
Proof.
  exists {| fmt := FORMAT; fields := field_list |}.
  split; [reflexivity|]. split; [reflexivity|]. split; [reflexivity|].
  intros LogRecord base record. unfold format. reflexivity.
Qed.

(** C4 as stated fails: a list with an empty and a repeated name gives a
    formatter, not an exception. *)
Lemma RedactingFormatter_init_malformed :
  exists self,
    RedactingFormatter_init [[]; s_ "name"; s_ "name"] = Returned self
    /\ fields self = [[]; s_ "name"; s_ "name"]
    /\ RedactingFormatter_init [[]; s_ "name"; s_ "name"]
       <> Raised "ConfigurationError".
Proof.
  eexists. split; [reflexivity|]. split; [reflexivity | discriminate].
Qed.

(** ** Password hashing (C5, C8) *)

(** C5, as amended.  [is_valid] returns what [bcrypt.checkpw] returns for the
    encoded password and the digest, and raises what it raises: the function
    handles no exception. *)
Theorem is_valid_delegates (checkpw : bytes -> pyval -> outcome bool)
  (hashed_password : pyval) (password : str) :
  (forall b, checkpw (encode password) hashed_password = Returned b <->
             is_valid checkpw hashed_password password = Returned b)
  /\ (forall exc, checkpw (encode password) hashed_password = Raised exc <->
                  is_valid checkpw hashed_password password = Raised exc).
Proof.
  unfold is_valid. split; intros x; split; intros H; exact H.
Qed.

(** C5 as stated fails: for a digest of the wrong type, which [checkpw]
    refuses, [is_valid] raises. *)
Lemma is_valid_raises_on_str_digest :
  is_valid (checkpw_typed (fun _ _ => false)) (PyStr (s_ "$2b$12$")) (s_ "p@ss")
  = Raised "TypeError".
Proof. reflexivity. Qed.



(** * Further properties of the code *)

(** ** [filter_datum] on any message *)

(** The first occurrence of a pattern is found, and no later than any
    occurrence. *)
Lemma cut_occurrence p u rest :
  exists w, cut p (u ++ p ++ rest) = Some w /\ length w <= length (u ++ p).
Proof.
  induction u as [|c u IH].
  - exists p. split; [apply cut_start; cbn [app]; apply startswith_app | simpl; lia].
  - change ((c :: u) ++ p ++ rest) with (c :: u ++ p ++ rest). cbn [cut].
    destruct (startswith p (c :: u ++ p ++ rest)).
    + exists p. split; [reflexivity|]. rewrite length_app. lia.
    + destruct IH as (w & -> & Hw). exists (c :: w). split; [reflexivity|].
      simpl. lia.
Qed.

Lemma app_same_length (a b c d : str) :
  a ++ b = c ++ d -> length a = length c -> a = c /\ b = d.
Proof.
  intros H L. pose proof (app_prefix_eq a c b d H L) as ->.
  split; [reflexivity | exact (app_inv_head _ _ _ H)].
Qed.

(** In a segment that a field's substitution leaves as it is, the field is
    followed by the redaction and nothing else. *)
Lemma seg_sub_fixed_value redaction g x u v :
  has_char "=" redaction = false ->
  seg_sub redaction g x = x ->
  x = u ++ (g ++ ["="]) ++ v ->
  v = redaction.
Proof.
  intros HR Hfix Hx. unfold seg_sub in Hfix.
  destruct (cut_occurrence (g ++ ["="]) u v) as (w & Hw & Hlen).
  rewrite <- Hx in Hw. rewrite Hw in Hfix.
  assert (E : (u ++ g ++ ["="]) ++ v = w ++ redaction).
  { rewrite Hfix, Hx, <- !app_assoc. reflexivity. }
  destruct (app_eq_app _ _ _ _ E) as [l [[H1 H2] | [H1 H2]]].
  - (* the occurrence would end within the redaction *)
    destruct l as [|d l].
    + rewrite app_nil_r in H1. subst w. simpl in H2. symmetry. exact H2.
    + exfalso. destruct (has_char_last "=" (d :: l) ltac:(discriminate) w)
        as (z0 & e & Hz & Hd).
      rewrite Hz, app_assoc in H1. apply app_inj_tail in H1 as [_ <-].
      rewrite H2, has_char_app, Hd, Ascii.eqb_refl, orb_true_r in HR. discriminate.
  - assert (l = []).
    { apply (f_equal (@length ascii)) in H1. rewrite !length_app in H1.
      rewrite !length_app in Hlen. destruct l; [reflexivity | cbn [length] in *; lia]. }
    subst l. simpl in H2. exact H2.
Qed.

Lemma seg_sub_idempotent redaction f s :
  seg_sub redaction f (seg_sub redaction f s) = seg_sub redaction f s.
Proof. exact (seg_filter_idempotent [f] redaction s). Qed.

(** A field of the list changes nothing after the list was applied. *)
Lemma seg_filter_absorbs redaction g fields s :
  has_char "=" redaction = false ->
  In g fields ->
  seg_sub redaction g (seg_filter fields redaction s) = seg_filter fields redaction s.
Proof.
  intros HR. induction fields as [|f fields IH] using rev_ind; intros Hin.
  - destruct Hin.
  - rewrite seg_filter_snoc. apply in_app_or in Hin as [Hin | [-> | []]].
    + rewrite seg_sub_commute by exact HR. rewrite (IH Hin). reflexivity.
    + apply seg_sub_idempotent.
Qed.

Lemma seg_filter_cons fields f redaction s :
  seg_filter (f :: fields) redaction s
  = seg_filter fields redaction (seg_sub redaction f s).
Proof. reflexivity. Qed.

Lemma seg_filter_repeated redaction f fields s :
  has_char "=" redaction = false ->
  In f fields ->
  seg_filter (f :: fields) redaction s = seg_filter fields redaction s.
Proof.
  intros HR Hin.
  rewrite (seg_filter_permutation redaction (f :: fields) (fields ++ [f]) HR
             (Permutation_cons_append fields f)).
  rewrite seg_filter_snoc. apply seg_filter_absorbs; assumption.
Qed.

Lemma seg_filter_dedup redaction fields :
  has_char "=" redaction = false ->
  forall s, seg_filter (dedup fields) redaction s = seg_filter fields redaction s.
Proof.
  intros HR. unfold dedup. induction fields as [|f fields IH]; intros s; [reflexivity|].
  cbn [nodup]. destruct (in_dec (list_eq_dec ascii_dec) f fields) as [Hin | Hout].
  - rewrite IH. symmetry. apply seg_filter_repeated; assumption.
  - rewrite !seg_filter_cons. apply IH.
Qed.

(** An occurrence of a text without semicolon in a joined message lies in
    one segment. *)
Lemma join_occurrence p segs u v :
  p <> [] -> has_char ";" p = false ->
  Forall (fun s => has_char ";" s = false) segs ->
  join [";"] segs = u ++ p ++ v ->
  exists s u' v' t,
    In s segs /\ s = u' ++ p ++ v' /\ v = v' ++ t /\ seg_end t.
Proof.
  intros Hne Hp Hsegs. revert u. induction Hsegs as [|x l Hx Hl IH]; intros u H.
  - simpl in H. destruct u; [destruct p; [congruence | discriminate] | discriminate].
  - destruct l as [|y l].
    + simpl in H. exists x, u, v, []. split; [left; reflexivity|].
      split; [exact H|]. split; [symmetry; apply app_nil_r | left; reflexivity].
    + rewrite join_cons in H. cbn [app] in H.
      assert (Hsemi : forall q z, q ++ z = ";" :: join [";"] (y :: l) ->
                 q = [] \/ exists q', q = ";" :: q' /\ q' ++ z = join [";"] (y :: l)).
      { intros [|d q] z Hq; [left; reflexivity|]. right. injection Hq as -> Hq.
        exists q. split; [reflexivity | exact Hq]. }
      destruct (app_eq_app _ _ _ _ H) as [r [[H1 H2] | [H1 H2]]].
      * destruct (app_eq_app _ _ _ _ H2) as [q [[G1 G2] | [G1 G2]]].
        -- (* the pattern ends where [x] ends, or would hold the semicolon *)
           symmetry in G2. destruct (Hsemi q v G2) as [-> | (q' & -> & _)].
           ++ rewrite app_nil_r in G1. subst r. simpl in G2.
              exists x, u, [], (";" :: join [";"] (y :: l)).
              split; [left; reflexivity|]. split; [rewrite app_nil_r; exact H1|].
              split; [exact G2 | right; eexists; reflexivity].
           ++ exfalso. rewrite G1, has_char_app in Hp.
              apply orb_false_iff in Hp as [_ Hp]. simpl in Hp. discriminate.
        -- exists x, u, q, (";" :: join [";"] (y :: l)).
           split; [left; reflexivity|]. split; [rewrite H1, G1; reflexivity|].
           split; [exact G2 | right; eexists; reflexivity].
      * symmetry in H2. destruct (Hsemi r (p ++ v) H2) as [-> | (r' & -> & Hr)].
        -- exfalso. simpl in H2. destruct p as [|d p]; [congruence|].
           injection H2 as -> _. simpl in Hp. discriminate.
        -- destruct (IH r' (eq_sym Hr)) as (s0 & u' & v' & t & Hin & Hs & Hv & Ht).
           exists s0, u', v', t. split; [right; exact Hin|]. repeat split; assumption.
Qed.

Lemma forallb_incl (A : Type) (f : A -> bool) (l l' : list A) :
  (forall x, In x l' -> In x l) -> forallb f l = true -> forallb f l' = true.
Proof.
  intros Hincl H. rewrite forallb_forall in *. intros x Hx. apply H, Hincl, Hx.
Qed.

Lemma split_semi_not_nil m : split_semi m <> [].
Proof.
  destruct m as [|c m]; simpl; [discriminate|].
  destruct (c =? ";"); [discriminate|]. destruct (split_semi m); discriminate.
Qed.

Lemma join_app (a b : list str) :
  a <> [] -> b <> [] -> join [";"] (a ++ b) = join [";"] a ++ ";" :: join [";"] b.
Proof.
  intros Ha Hb. induction a as [|x a IH]; [congruence|].
  destruct a as [|y a].
  - destruct b as [|z b]; [congruence|]. reflexivity.
  - change ((x :: y :: a) ++ b) with (x :: (y :: a) ++ b).
    change ((y :: a) ++ b) with (y :: a ++ b) at 1. rewrite !join_cons.
    change (y :: a ++ b) with ((y :: a) ++ b). rewrite IH by discriminate.
    rewrite <- !app_assoc. reflexivity.
Qed.

Lemma filter_datum_occurrences fields redaction message separator :
  modelled fields redaction = true ->
  forallb no_semi fields = true ->
  clean redaction = true ->
  exists out,
    filter_datum fields redaction message separator = Some out
    /\ forall g u v,
         In g fields -> out = u ++ (g ++ ["="]) ++ v -> redacted_here redaction v.
Proof.
  intros Hm Hf HR. apply clean_inv in HR as [HR1 HR2].
  pose proof (forallb_no_semi _ Hf) as Hf'.
  destruct (message_segments message) as (segs & -> & Hsegs).
  exists (join [";"] (map (seg_filter fields redaction) segs)).
  split; [apply filter_datum_segments; assumption|].
  intros g u v Hg Hout.
  assert (Hgs : has_char ";" g = false).
  { rewrite Forall_forall in Hf'. exact (Hf' g Hg). }
  destruct (join_occurrence (g ++ ["="]) (map (seg_filter fields redaction) segs) u v)
    as (s & u' & v' & t & Hin & Hs & Hv & Ht).
  - destruct g; discriminate.
  - apply pattern_no_semi. exact Hgs.
  - apply Forall_map. revert Hsegs. apply Forall_impl. intros s Hs.
    apply seg_filter_no_semi; assumption.
  - exact Hout.
  - apply in_map_iff in Hin as (s0 & <- & _).
    pose proof (seg_filter_absorbs redaction g fields s0 HR2 Hg) as Hfix.
    pose proof (seg_sub_fixed_value redaction g _ u' v' HR2 Hfix Hs) as ->.
    exists t. split; assumption.
Qed.

(** X1.  After [filter_datum], for fields without regular-expression syntax
    or [';'] and a redaction without [';'], ['='] or backslash, whatever the
    message was: each occurrence of a field followed by ['='] in the result
    is followed by the redaction, and then by a semicolon or the end of the
    message. *)
Theorem filter_datum_leaves_no_value fields redaction message separator :
  modelled fields redaction = true ->
  forallb no_semi fields = true ->
  clean redaction = true ->
  exists out,
    filter_datum fields redaction message separator = Some out
    /\ forall g u v,
         In g fields -> out = u ++ (g ++ ["="]) ++ v -> redacted_here redaction v.
Proof. exact (filter_datum_occurrences fields redaction message separator). Qed.

Lemma filter_datum_leaves_no_value_row :
  exists out,
    filter_datum PII_FIELDS REDACTION
      (s_ "name=Bob=Dylan;nickname=b; password=a=b;c=d") SEPARATOR = Some out
    /\ forall g u v,
         In g PII_FIELDS -> out = u ++ (g ++ ["="]) ++ v -> redacted_here REDACTION v.
Proof.
  exact (filter_datum_leaves_no_value PII_FIELDS REDACTION
           (s_ "name=Bob=Dylan;nickname=b; password=a=b;c=d") SEPARATOR
           eq_refl eq_refl eq_refl).
Defined.

(** X2.  A field that is repeated in the list has no effect of its own: for
    fields without regular-expression syntax or [';'] and a redaction
    without [';'], ['='] or backslash, the list without repetitions gives
    the same result. *)
Theorem filter_datum_dedup fields redaction message separator :
  modelled fields redaction = true ->
  forallb no_semi fields = true ->
  clean redaction = true ->
  filter_datum (dedup fields) redaction message separator
  = filter_datum fields redaction message separator.
Proof.
  intros Hm Hf HR. apply clean_inv in HR as [HR1 HR2].
  assert (Hincl : forall x, In x (dedup fields) -> In x fields).
  { intros x. apply nodup_In. }
  pose proof (forallb_incl _ _ _ _ Hincl Hm) as Hm'.
  pose proof (forallb_incl _ _ _ _ Hincl Hf) as Hf'.
  apply forallb_no_semi in Hf, Hf'.
  destruct (message_segments message) as (segs & -> & Hsegs).
  rewrite (filter_datum_segments _ _ separator Hm Hf HR1 segs Hsegs).
  rewrite (filter_datum_segments _ _ separator Hm' Hf' HR1 segs Hsegs).
  do 2 f_equal. apply map_ext. intros s. apply seg_filter_dedup. exact HR2.
Qed.

Lemma filter_datum_dedup_name_twice :
  filter_datum (dedup [s_ "name"; s_ "email"; s_ "name"]) REDACTION
    (s_ "name=Bob; email=b@d.com") SEPARATOR
  = filter_datum [s_ "name"; s_ "email"; s_ "name"] REDACTION
      (s_ "name=Bob; email=b@d.com") SEPARATOR.
Proof.
  exact (filter_datum_dedup [s_ "name"; s_ "email"; s_ "name"] REDACTION
           (s_ "name=Bob; email=b@d.com") SEPARATOR eq_refl eq_refl eq_refl).
Defined.

(** X3.  Filtering with one list of fields and then with another is
    filtering with the two lists put together; this holds for every
    redaction and message, also where the model of [re] gives no result. *)
Theorem filter_datum_app fields fields' redaction message separator :
  filter_datum (fields ++ fields') redaction message separator
  = match filter_datum fields redaction message separator with
    | Some message' => filter_datum fields' redaction message' separator
    | None => None
    end.
Proof.
  revert message. induction fields as [|f fields IH]; intros message; [reflexivity|].
  cbn [app filter_datum]. destruct (sub_field f redaction message) as [m|]; [|reflexivity].
  apply IH.
Qed.

(** X4.  A semicolon splits the work: for fields without
    regular-expression syntax or [';'] and a redaction without [';'] or
    backslash, the result for [a;b] is the result for [a], a semicolon, and
    the result for [b].  So a value is redacted up to its first semicolon
    and what follows is filtered as a message of its own. *)
Theorem filter_datum_semicolon_parts fields redaction a b separator :
  modelled fields redaction = true ->
  forallb no_semi fields = true ->
  no_semi redaction = true ->
  exists a' b',
    filter_datum fields redaction a separator = Some a'
    /\ filter_datum fields redaction b separator = Some b'
    /\ filter_datum fields redaction (a ++ ";" :: b) separator
       = Some (a' ++ ";" :: b').
Proof.
  intros Hm Hf HR. apply forallb_no_semi in Hf. apply no_semi_inv in HR.
  pose proof (split_semi_no_semi a) as Ha. pose proof (split_semi_no_semi b) as Hb.
  exists (join [";"] (map (seg_filter fields redaction) (split_semi a))),
         (join [";"] (map (seg_filter fields redaction) (split_semi b))).
  split; [|split].
  - rewrite <- (join_split_semi a) at 1. apply filter_datum_segments; assumption.
  - rewrite <- (join_split_semi b) at 1. apply filter_datum_segments; assumption.
  - rewrite <- (join_split_semi a) at 1. rewrite <- (join_split_semi b) at 1.
    rewrite <- join_app by apply split_semi_not_nil.
    rewrite (filter_datum_segments _ _ separator Hm Hf HR).
    + rewrite map_app, join_app; [reflexivity | |].
      * intros E. apply map_eq_nil in E. exact (split_semi_not_nil a E).
      * intros E. apply map_eq_nil in E. exact (split_semi_not_nil b E).
    + apply Forall_app. split; assumption.
Qed.

Lemma filter_datum_semicolon_parts_value :
  exists a' b',
    filter_datum PII_FIELDS REDACTION (s_ "name=Dylan, Bob") SEPARATOR = Some a'
    /\ filter_datum PII_FIELDS REDACTION (s_ " born 1941; ssn=1") SEPARATOR = Some b'
    /\ filter_datum PII_FIELDS REDACTION
         (s_ "name=Dylan, Bob" ++ ";" :: s_ " born 1941; ssn=1") SEPARATOR
       = Some (a' ++ ";" :: b').
Proof.
  exact (filter_datum_semicolon_parts PII_FIELDS REDACTION (s_ "name=Dylan, Bob")
           (s_ " born 1941; ssn=1") SEPARATOR eq_refl eq_refl eq_refl).
Defined.

(** ** The line of a record *)

(** [FORMAT % record.__dict__]: the prefix and the message. *)
Lemma Formatter_format_FORMAT record :
  Formatter_format FORMAT record = Some (line_prefix record ++ rec_message record).
Proof.
  destruct record as [n l a m]. unfold line_prefix.
  cbn [rec_name rec_levelname rec_asctime rec_message].
  change (Formatter_format FORMAT
            {| rec_name := n; rec_levelname := l; rec_asctime := a; rec_message := m |})
    with (Some (s_ "[HOLBERTON] " ++ n ++ s_ " " ++ l ++ s_ " " ++ a ++ s_ ": "
                ++ m ++ [])).
  rewrite app_nil_r, <- !app_assoc. reflexivity.
Qed.

Lemma seg_filter_no_eq fields redaction s :
  has_char "=" s = false -> seg_filter fields redaction s = s.
Proof.
  intros Hs. unfold seg_filter. induction fields as [|f fields IH]; [reflexivity|].
  cbn [fold_left]. unfold seg_sub at 2. rewrite (cut_absent f s Hs). exact IH.
Qed.

Lemma filter_datum_prefixed_pairs fields redaction pre tl pairs separator :
  modelled fields redaction = true ->
  forallb no_semi fields = true ->
  clean redaction = true ->
  clean pre = true ->
  clean tl = true ->
  forallb clean_pair pairs = true ->
  filter_datum fields redaction (pre ++ render (";" :: tl) pairs) separator
  = Some (pre ++ render (";" :: tl) (redact_pairs_after fields redaction pre tl pairs)).
Proof.
  intros Hm Hf HR Hpre Htl Hp.
  apply clean_inv in HR as [HR1 HR2]. apply clean_inv in Htl as [Ht1 Ht2].
  apply clean_inv in Hpre as [Hp1 Hp2]. apply forallb_no_semi in Hf.
  destruct pairs as [|p ps].
  - change (pre ++ render (";" :: tl) []) with (pre ++ []). rewrite app_nil_r.
    change pre with (join [";"] [pre]) at 1.
    rewrite (filter_datum_segments _ _ separator Hm Hf HR1 [pre]) by (repeat constructor; exact Hp1).
    cbn [map join]. rewrite (seg_filter_no_eq _ _ _ Hp2).
    change (render (";" :: tl) (redact_pairs_after fields redaction pre tl [])) with (@nil ascii).
    rewrite app_nil_r. reflexivity.
  - cbn [forallb] in Hp. apply andb_true_iff in Hp as [Hp Hps].
    rewrite forallb_forall in Hps.
    unfold render, redact_pairs_after. cbn [map]. rewrite !(join_sep_tail tl).
    rewrite <- !join_app_head.
    rewrite (filter_datum_segments _ _ separator Hm Hf HR1).
    + cbn [map].
      rewrite (seg_filter_pair_text fields redaction pre p Hp2 HR2 Hp), !map_map.
      rewrite (map_ext_in _ (fun q => tl ++ pair_text (redact_pair fields redaction tl q))).
      * reflexivity.
      * intros q Hq.
        apply (seg_filter_pair_text fields redaction tl q Ht2 HR2 (Hps q Hq)).
    + constructor.
      * apply (pair_seg_no_semi pre p Hp1 Hp).
      * rewrite map_map. apply Forall_forall. intros s Hs.
        apply in_map_iff in Hs as (q & <- & Hq).
        apply (pair_seg_no_semi tl q Ht1 (Hps q Hq)).
Qed.

(** A field without the character [c] that ends [a ++ c :: k] ends [k]. *)
Lemma endswith_skip a c k f :
  has_char c f = false -> endswith (a ++ c :: k) f = true -> endswith k f = true.
Proof.
  intros Hc. induction a as [|x a IH]; cbn [app endswith]; intros H.
  - apply orb_true_iff in H as [H | H]; [|exact H].
    apply str_eqb_eq in H. subst f. simpl in Hc. rewrite Ascii.eqb_refl in Hc.
    discriminate.
  - apply orb_true_iff in H as [H | H]; [|exact (IH H)].
    apply str_eqb_eq in H. subst f.
    change (x :: a ++ c :: k) with ((x :: a) ++ c :: k) in Hc.
    rewrite has_char_app in Hc. apply orb_false_iff in Hc as [_ Hc].
    simpl in Hc. rewrite Ascii.eqb_refl in Hc. discriminate.
Qed.

Lemma hit_after_space fields a k :
  forallb no_space fields = true ->
  forallb (fun f => implb (endswith ([] ++ k) f) (str_eqb k f)) fields = true ->
  hit fields ((a ++ [" "]) ++ k) = mem k fields.
Proof.
  unfold hit, mem. induction fields as [|f fields IH]; intros Hs Ha; [reflexivity|].
  cbn [forallb existsb] in *. apply andb_true_iff in Hs as [Hf Hs].
  apply andb_true_iff in Ha as [Hk Ha]. rewrite (IH Hs Ha). f_equal.
  rewrite <- app_assoc. cbn [app] in *.
  destruct (str_eqb k f) eqn:E.
  - apply str_eqb_eq in E. subst f. change (a ++ " " :: k) with (a ++ [" "] ++ k).
    rewrite app_assoc. apply endswith_app, endswith_refl.
  - destruct (endswith (a ++ " " :: k) f) eqn:E'; [|reflexivity].
    unfold no_space in Hf. apply negb_true_iff in Hf.
    rewrite (endswith_skip a " " k f Hf E') in Hk. discriminate.
Qed.

Lemma line_prefix_clean record :
  clean (rec_name record) = true -> clean (rec_levelname record) = true ->
  clean (rec_asctime record) = true -> clean (line_prefix record) = true.
Proof.
  intros Hn Hl Ha. apply clean_inv in Hn as [Hn1 Hn2]. apply clean_inv in Hl as [Hl1 Hl2].
  apply clean_inv in Ha as [Ha1 Ha2]. unfold clean, no_semi, no_eq, line_prefix.
  rewrite !has_char_app, Hn1, Hn2, Hl1, Hl2, Ha1, Ha2. reflexivity.
Qed.

Lemma line_prefix_space record : exists a, line_prefix record = a ++ [" "].
Proof.
  exists (s_ "[HOLBERTON] " ++ rec_name record ++ s_ " " ++ rec_levelname record
          ++ s_ " " ++ rec_asctime record ++ [":"]).
  unfold line_prefix. rewrite <- !app_assoc. reflexivity.
Qed.

(** X5.  The line of a record whose message is a row of [main]: for a logger
    name, level name and time without [';'] or ['='], keys and values
    without them, and fields without regular-expression syntax, semicolon or
    space, none the end of a longer key, [format] returns the prefix of
    [FORMAT] unchanged, followed by the pairs with the value of exactly the
    keys among the fields replaced by ["***"]. *)
Theorem RedactingFormatter_format_row field_list name levelname asctime pairs :
  modelled field_list REDACTION = true ->
  forallb no_semi field_list = true ->
  forallb no_space field_list = true ->
  clean name = true -> clean levelname = true -> clean asctime = true ->
  forallb clean_pair pairs = true ->
  anchored field_list [] pairs = true ->
  RedactingFormatter_format {| fmt := FORMAT; fields := field_list |}
    {| rec_name := name; rec_levelname := levelname; rec_asctime := asctime;
       rec_message := render SEPARATOR pairs |}
  = Some (s_ "[HOLBERTON] " ++ name ++ s_ " " ++ levelname ++ s_ " " ++ asctime
          ++ s_ ": " ++ render SEPARATOR (redact_keys field_list REDACTION pairs)).
Proof.
  intros Hm Hf Hs Hn Hl Ha Hp Hanch.
  set (record := {| rec_name := name; rec_levelname := levelname;
                    rec_asctime := asctime; rec_message := render SEPARATOR pairs |}).
  unfold RedactingFormatter_format. cbn [fmt fields].
  rewrite Formatter_format_FORMAT.
  change (rec_message record) with (render (";" :: s_ " ") pairs).
  rewrite (filter_datum_prefixed_pairs field_list REDACTION (line_prefix record) (s_ " ")
             pairs SEPARATOR Hm Hf eq_refl (line_prefix_clean record Hn Hl Ha) eq_refl Hp).
  assert (E : redact_pairs_after field_list REDACTION (line_prefix record) (s_ " ") pairs
              = redact_keys field_list REDACTION pairs).
  { unfold redact_pairs_after, redact_keys, anchored in *.
    destruct pairs as [|p ps]; [reflexivity|].
    cbn [forallb map] in *. apply andb_true_iff in Hanch as [Hp0 Hps]. f_equal.
    - unfold redact_pair. destruct (line_prefix_space record) as [a ->].
      rewrite (hit_after_space field_list a (fst p) Hs Hp0). reflexivity.
    - apply map_ext_in. intros q Hq. rewrite forallb_forall in Hps.
      unfold redact_pair. change (s_ " ") with ([] ++ [" "]) at 1.
      rewrite (hit_after_space field_list [] (fst q) Hs (Hps q Hq)). reflexivity. }
  rewrite E. unfold line_prefix, record. cbn [rec_name rec_levelname rec_asctime].
  rewrite <- !app_assoc. reflexivity.
Qed.

Lemma RedactingFormatter_format_row_bob :
  RedactingFormatter_format {| fmt := FORMAT; fields := PII_FIELDS |}
    {| rec_name := s_ "user_data"; rec_levelname := s_ "INFO";
       rec_asctime := s_ "2019-11-19 18:24:25,105";
       rec_message := s_ "name=Bob; email=bob@dylan.com; ssn=000-123-0000; ip=60.1.2.3" |}
  = Some (s_ "[HOLBERTON] user_data INFO 2019-11-19 18:24:25,105: name=***; email=***; ssn=***; ip=60.1.2.3").
Proof.
  exact (RedactingFormatter_format_row PII_FIELDS (s_ "user_data") (s_ "INFO")
           (s_ "2019-11-19 18:24:25,105")
           [(s_ "name", s_ "Bob"); (s_ "email", s_ "bob@dylan.com");
            (s_ "ssn", s_ "000-123-0000"); (s_ "ip", s_ "60.1.2.3")]
           eq_refl eq_refl eq_refl eq_refl eq_refl eq_refl eq_refl eq_refl).
Defined.

Lemma RedactingFormatter_format_leaves_no_value_aux field_list record :
  modelled field_list REDACTION = true ->
  forallb no_semi field_list = true ->
  exists line,
    RedactingFormatter_format {| fmt := FORMAT; fields := field_list |} record = Some line
    /\ forall g u v,
         In g field_list -> line = u ++ (g ++ ["="]) ++ v -> redacted_here REDACTION v.
Proof.
  intros Hm Hf. unfold RedactingFormatter_format. cbn [fmt fields].
  rewrite Formatter_format_FORMAT.
  exact (filter_datum_occurrences field_list REDACTION _ SEPARATOR Hm Hf eq_refl).
Qed.

(** X6.  [format] leaves no value behind a field, whatever the record holds
    (also in the logger name or the time, and for a message that is no row):
    for fields without regular-expression syntax or semicolon, each
    occurrence of a field followed by ['='] in the line is followed by
    ["***"] and then by a semicolon or the end of the line. *)
Theorem RedactingFormatter_format_leaves_no_value field_list record :
  modelled field_list REDACTION = true ->
  forallb no_semi field_list = true ->
  exists line,
    RedactingFormatter_format {| fmt := FORMAT; fields := field_list |} record = Some line
    /\ forall g u v,
         In g field_list -> line = u ++ (g ++ ["="]) ++ v -> redacted_here REDACTION v.
Proof. exact (RedactingFormatter_format_leaves_no_value_aux field_list record). Qed.

Lemma RedactingFormatter_format_leaves_no_value_pii :
  exists line,
    RedactingFormatter_format {| fmt := FORMAT; fields := PII_FIELDS |}
      {| rec_name := s_ "name=x"; rec_levelname := s_ "INFO";
         rec_asctime := s_ "now"; rec_message := s_ "password=a=b;c phone=1" |}
    = Some line
    /\ forall g u v,
         In g PII_FIELDS -> line = u ++ (g ++ ["="]) ++ v -> redacted_here REDACTION v.
Proof.
  exact (RedactingFormatter_format_leaves_no_value PII_FIELDS
           {| rec_name := s_ "name=x"; rec_levelname := s_ "INFO";
              rec_asctime := s_ "now"; rec_message := s_ "password=a=b;c phone=1" |}
           eq_refl eq_refl).
Defined.

(** ** The logger *)

Lemma find_set_logger name logger w :
  find_logger name (set_logger name logger w) = Some logger.
Proof. unfold find_logger, set_logger. cbn [loggers find fst snd]. rewrite str_eqb_refl. reflexivity. Qed.

Lemma get_logger_spec w :
  exists w',
    get_logger w = Returned w'
    /\ find_logger (s_ "user_data") w'
       = Some {| level := INFO; propagate := false;
                 handlers := user_data_handlers w ++ [pii_handler] |}
    /\ stderr w' = stderr w.
Proof.
  unfold get_logger, getLogger, user_data_handlers.
  destruct (find_logger (s_ "user_data") w) as [logger|] eqn:E.
  - eexists. split; [reflexivity|]. rewrite find_set_logger. split; reflexivity.
  - eexists. split; [reflexivity|]. rewrite find_set_logger. split; reflexivity.
Qed.

Lemma get_logger_times_spec n w :
  exists w',
    get_logger_times (S n) w = Returned w'
    /\ find_logger (s_ "user_data") w'
       = Some {| level := INFO; propagate := false;
                 handlers := user_data_handlers w ++ repeat pii_handler (S n) |}
    /\ stderr w' = stderr w.
Proof.
  revert w. induction n as [|n IH]; intros w.
  - destruct (get_logger_spec w) as (w' & E & Hf & Hs).
    exists w'. cbn [get_logger_times]. rewrite E. repeat split; assumption.
  - destruct (get_logger_spec w) as (w1 & E & Hf & Hs).
    destruct (IH w1) as (w' & E' & Hf' & Hs').
    exists w'. change (get_logger_times (S (S n)) w)
      with (match get_logger w with
            | Returned w' => get_logger_times (S n) w'
            | Raised exc => Raised exc
            end).
    rewrite E. split; [exact E'|]. split; [|congruence].
    rewrite Hf'. unfold user_data_handlers at 1. rewrite Hf. cbn [handlers].
    rewrite <- app_assoc. reflexivity.
Qed.

Lemma pii_format_returns record :
  exists line,
    RedactingFormatter_format (formatter pii_handler) record = Some line.
Proof.
  unfold RedactingFormatter_format, pii_handler. cbn [formatter fmt fields].
  rewrite Formatter_format_FORMAT.
  apply filter_datum_returns. reflexivity.
Qed.

Lemma callHandlers_app hs hs' record w :
  callHandlers (hs ++ hs') record w
  = match callHandlers hs record w with
    | Some w' => callHandlers hs' record w'
    | None => None
    end.
Proof.
  revert w. induction hs as [|h hs IH]; intros w; [reflexivity|].
  cbn [app callHandlers].
  destruct (RedactingFormatter_format (formatter h) record); [apply IH | reflexivity].
Qed.

Lemma callHandlers_repeat h n record line w :
  RedactingFormatter_format (formatter h) record = Some line ->
  callHandlers (repeat h n) record w
  = Some {| loggers := loggers w;
            stderr := stderr w ++ repeat (line ++ terminator) n |}.
Proof.
  intros E. revert w. induction n as [|n IH]; intros w.
  - cbn [repeat callHandlers]. rewrite app_nil_r. destruct w; reflexivity.
  - cbn [repeat callHandlers]. rewrite E, IH. cbn [loggers stderr].
    rewrite <- app_assoc. reflexivity.
Qed.

(** X7.  Every call of [get_logger] adds a handler to the one logger
    [user_data]: after [n+1] calls in a process where that logger was not yet
    made, one [logger.info(msg)] writes the redacted line [n+1] times. *)
Theorem get_logger_repeated n w asctime msg :
  find_logger (s_ "user_data") w = None ->
  exists w1 line,
    get_logger_times (S n) w = Returned w1
    /\ RedactingFormatter_format {| fmt := FORMAT; fields := PII_FIELDS |}
         (info_record asctime msg) = Some line
    /\ Logger_info (s_ "user_data") asctime msg w1
       = Some {| loggers := loggers w1;
                 stderr := stderr w ++ repeat (line ++ terminator) (S n) |}.
Proof.
  intros Hnew.
  destruct (get_logger_times_spec n w) as (w1 & E & Hf & Hs).
  destruct (pii_format_returns (info_record asctime msg)) as [line Hline].
  exists w1, line. split; [exact E|]. split; [exact Hline|].
  unfold Logger_info, Logger_log. rewrite Hf. cbn [level propagate handlers].
  unfold user_data_handlers. rewrite Hnew. cbn [app repeat].
  change (Nat.eqb INFO NOTSET) with false. change (Nat.ltb INFO INFO) with false.
  change (getLevelName INFO) with (Some (s_ "INFO")). cbv iota.
  change (pii_handler :: repeat pii_handler n) with (repeat pii_handler (S n)).
  fold (info_record asctime msg).
  rewrite (callHandlers_repeat pii_handler (S n) _ line w1 Hline), Hs. reflexivity.
Qed.

Lemma get_logger_repeated_twice :
  exists w1 line,
    get_logger_times 2 {| loggers := []; stderr := [] |} = Returned w1
    /\ RedactingFormatter_format {| fmt := FORMAT; fields := PII_FIELDS |}
         (info_record (s_ "2019-11-19 18:24:25,105") (s_ "name=Bob; ip=1.2.3.4"))
       = Some line
    /\ Logger_info (s_ "user_data") (s_ "2019-11-19 18:24:25,105")
         (s_ "name=Bob; ip=1.2.3.4") w1
       = Some {| loggers := loggers w1;
                 stderr := [] ++ repeat (line ++ terminator) 2 |}.
Proof.
  exact (get_logger_repeated 1 {| loggers := []; stderr := [] |}
           (s_ "2019-11-19 18:24:25,105") (s_ "name=Bob; ip=1.2.3.4") eq_refl).
Defined.

(** X8.  After [get_logger], in any state of the logging module, a record
    below [INFO] on the logger [user_data] is dropped: nothing is written and
    nothing changes. *)
Theorem get_logger_drops_below_info w lvl asctime msg :
  lvl < INFO ->
  exists w1,
    get_logger w = Returned w1
    /\ Logger_log lvl (s_ "user_data") asctime msg w1 = Some w1.
Proof.
  intros Hlvl. destruct (get_logger_spec w) as (w1 & E & Hf & Hs).
  exists w1. split; [exact E|]. unfold Logger_log. rewrite Hf. cbn [level].
  change (Nat.eqb INFO NOTSET) with false. cbv iota.
  apply Nat.ltb_lt in Hlvl. rewrite Hlvl. reflexivity.
Qed.

Lemma get_logger_drops_debug :
  exists w1,
    get_logger {| loggers := []; stderr := [] |} = Returned w1
    /\ Logger_log DEBUG (s_ "user_data") (s_ "2019-11-19 18:24:25,105")
         (s_ "password=secret") w1 = Some w1.
Proof.
  exact (get_logger_drops_below_info {| loggers := []; stderr := [] |} DEBUG
           (s_ "2019-11-19 18:24:25,105") (s_ "password=secret")
           ltac:(unfold DEBUG, INFO; lia)).
Defined.

(** ** [main] *)

Lemma Logger_info_single asctime msg w :
  find_logger (s_ "user_data") w
  = Some {| level := INFO; propagate := false; handlers := [pii_handler] |} ->
  exists line,
    RedactingFormatter_format {| fmt := FORMAT; fields := PII_FIELDS |}
      (info_record asctime msg) = Some line
    /\ Logger_info (s_ "user_data") asctime msg w
       = Some {| loggers := loggers w; stderr := stderr w ++ [line ++ terminator] |}.
Proof.
  intros Hf. destruct (pii_format_returns (info_record asctime msg)) as [line Hline].
  exists line. split; [exact Hline|].
  unfold Logger_info, Logger_log. rewrite Hf. cbn [level propagate handlers].
  change (Nat.eqb INFO NOTSET) with false. change (Nat.ltb INFO INFO) with false.
  change (getLevelName INFO) with (Some (s_ "INFO")). cbv iota.
  fold (info_record asctime msg).
  exact (callHandlers_repeat pii_handler 1 _ line w Hline).
Qed.

Lemma log_rows_lines (value : Type) (format_value : value -> str) (now : nat -> str)
  columns rows :
  forall i w,
    find_logger (s_ "user_data") w
    = Some {| level := INFO; propagate := false; handlers := [pii_handler] |} ->
    exists w' lines,
      log_rows format_value now columns rows i w = Some w'
      /\ stderr w' = stderr w ++ lines
      /\ length lines = length rows
      /\ forall j row,
           nth_error rows j = Some row ->
           exists line,
             RedactingFormatter_format {| fmt := FORMAT; fields := PII_FIELDS |}
               (info_record (now (i + j)) (user_data format_value columns row))
             = Some line
             /\ nth_error lines j = Some (line ++ terminator).
Proof.
  induction rows as [|row rows IH]; intros i w Hf.
  - exists w, []. cbn [log_rows]. rewrite app_nil_r. repeat split.
    intros [|j] r H; discriminate.
  - destruct (Logger_info_single (now i) (user_data format_value columns row) w Hf)
      as (line & Hline & Hinfo).
    cbn [log_rows]. rewrite Hinfo.
    destruct (IH (S i) {| loggers := loggers w;
                          stderr := stderr w ++ [line ++ terminator] |})
      as (w' & lines & Hlog & Hs & Hlen & Hnth).
    { exact Hf. }
    exists w', ((line ++ terminator) :: lines). split; [exact Hlog|].
    split; [rewrite Hs; cbn [stderr]; rewrite <- app_assoc; reflexivity|].
    split; [cbn [length]; rewrite Hlen; reflexivity|].
    intros [|j] r H; cbn [nth_error] in *.
    + injection H as <-. exists line. rewrite Nat.add_0_r. split; [exact Hline | reflexivity].
    + destruct (Hnth j r H) as (l & Hl & Hn). exists l.
      rewrite Nat.add_succ_r. split; [exact Hl | exact Hn].
Qed.

(** X9.  In a process where the logger [user_data] was not yet made, [main]
    writes one line for each row of the cursor, in the order of the rows:
    the [i]-th line is what [format] returns for the record of the [i]-th
    row, followed by a newline.  No row makes it stop. *)
Theorem main_one_line_per_row (value : Type) (format_value : value -> str)
  (now : nat -> str) columns rows w :
  find_logger (s_ "user_data") w = None ->
  exists w' lines,
    main format_value now columns rows w = Some w'
    /\ stderr w' = stderr w ++ lines
    /\ length lines = length rows
    /\ forall i row,
         nth_error rows i = Some row ->
         exists line,
           RedactingFormatter_format {| fmt := FORMAT; fields := PII_FIELDS |}
             (info_record (now i) (user_data format_value columns row))
           = Some line
           /\ nth_error lines i = Some (line ++ terminator).
Proof.
  intros Hnew. unfold main.
  destruct (get_logger_spec w) as (w1 & E & Hf & Hs). rewrite E.
  unfold user_data_handlers in Hf. rewrite Hnew in Hf. cbn [app] in Hf.
  destruct (log_rows_lines value format_value now columns rows 0 w1 Hf)
    as (w' & lines & Hlog & Hs' & Hlen & Hnth).
  exists w', lines. split; [exact Hlog|]. split; [congruence|].
  split; [exact Hlen | exact Hnth].
Qed.

Lemma main_one_line_per_row_two :
  exists w' lines,
    main (fun v : str => v) (fun _ => s_ "2019-11-19 18:24:25,105")
      [s_ "name"; s_ "ip"] [[s_ "Bob"; s_ "1.2.3.4"]; [s_ "Al"; s_ "5.6.7.8"]]
      {| loggers := []; stderr := [] |} = Some w'
    /\ stderr w' = [] ++ lines
    /\ length lines = 2
    /\ forall i row,
         nth_error [[s_ "Bob"; s_ "1.2.3.4"]; [s_ "Al"; s_ "5.6.7.8"]] i = Some row ->
         exists line,
           RedactingFormatter_format {| fmt := FORMAT; fields := PII_FIELDS |}
             (info_record (s_ "2019-11-19 18:24:25,105")
                (user_data (fun v : str => v) [s_ "name"; s_ "ip"] row))
           = Some line
           /\ nth_error lines i = Some (line ++ terminator).
Proof.
  exact (main_one_line_per_row str (fun v => v) (fun _ => s_ "2019-11-19 18:24:25,105")
           [s_ "name"; s_ "ip"] [[s_ "Bob"; s_ "1.2.3.4"]; [s_ "Al"; s_ "5.6.7.8"]]
           {| loggers := []; stderr := [] |} eq_refl).
Defined.

Lemma combine_app_left (A B : Type) (l l' : list A) (r : list B) :
  length l = length r -> combine (l ++ l') r = combine l r.
Proof.
  revert r; induction l as [|a l IH]; intros [|b r] H; simpl in *; try discriminate.
  - destruct l'; reflexivity.
  - f_equal. apply IH. lia.
Qed.

Lemma combine_app_right (A B : Type) (l : list A) (r r' : list B) :
  length l = length r -> combine l (r ++ r') = combine l r.
Proof.
  revert r; induction l as [|a l IH]; intros [|b r] H; simpl in *; try discriminate.
  - reflexivity.
  - f_equal. apply IH. lia.
Qed.

(** X10.  [user_data] pairs columns and values by position and drops what
    has no partner: columns beyond the values of the row, and values beyond
    the columns, leave the text as it is. *)
Theorem user_data_unpaired (value : Type) (format_value : value -> str)
  columns row more_columns more_values :
  length columns = length row ->
  user_data format_value (columns ++ more_columns) row
  = user_data format_value columns row
  /\ user_data format_value columns (row ++ more_values)
     = user_data format_value columns row.
Proof.
  intros H. unfold user_data.
  rewrite (combine_app_left _ _ columns more_columns row H).
  rewrite (combine_app_right _ _ columns row more_values H). split; reflexivity.
Qed.

Lemma user_data_unpaired_short_row :
  user_data (fun v : str => v) ([s_ "name"; s_ "email"] ++ [s_ "ssn"])
    [s_ "Bob"; s_ "b@d.com"]
  = user_data (fun v : str => v) [s_ "name"; s_ "email"] [s_ "Bob"; s_ "b@d.com"]
  /\ user_data (fun v : str => v) [s_ "name"; s_ "email"]
       ([s_ "Bob"; s_ "b@d.com"] ++ [s_ "000-12-3456"])
     = user_data (fun v : str => v) [s_ "name"; s_ "email"] [s_ "Bob"; s_ "b@d.com"].
Proof.
  exact (user_data_unpaired str (fun v => v) [s_ "name"; s_ "email"]
           [s_ "Bob"; s_ "b@d.com"] [s_ "ssn"] [s_ "000-12-3456"] eq_refl).
Defined.

(** ** [get_db] *)

(** X11.  [get_db] reads four variables of the environment and nothing
    else: two environments that agree on them give the same call of
    [connect], hence the same connection or exception. *)
Theorem get_db_reads_its_variables (MySQLConnection : Type)
  (connect : db_config -> outcome MySQLConnection) (env env' : environ) :
  (forall key, In key db_variables -> env key = env' key) ->
  get_db connect env = get_db connect env'.
Proof.
  intros H. unfold get_db, get_db_config, getenv. f_equal.
  rewrite (H (s_ "PERSONAL_DATA_DB_USERNAME") (or_introl eq_refl)).
  rewrite (H (s_ "PERSONAL_DATA_DB_PASSWORD") (or_intror (or_introl eq_refl))).
  rewrite (H (s_ "PERSONAL_DATA_DB_HOST") (or_intror (or_intror (or_introl eq_refl)))).
  rewrite (H (s_ "PERSONAL_DATA_DB_NAME")
             (or_intror (or_intror (or_intror (or_introl eq_refl))))).
  reflexivity.
Qed.

Lemma get_db_reads_its_variables_home :
  get_db (fun c => Returned c) (fun _ => None)
  = get_db (fun c => Returned c)
      (fun key => if str_eqb key (s_ "HOME") then Some (s_ "/root") else None).
Proof.
  apply (get_db_reads_its_variables db_config (fun c => Returned c) (fun _ => None)
           (fun key => if str_eqb key (s_ "HOME") then Some (s_ "/root") else None)).
  intros key [<- | [<- | [<- | [<- | []]]]]; reflexivity.
Defined.


(** ** The bytes of a password *)

Lemma utf8_head_utf8 c r : utf8_head (utf8 c ++ r) = Some (c, r).
Proof. destruct c as [[] [] [] [] [] [] [] []]; reflexivity. Qed.

(** X13.  [password.encode()] tells passwords apart: two passwords with the
    same bytes are the same password, so [hash_password] and [is_valid] hand
    [bcrypt] different bytes for different passwords. *)
Theorem encode_injective (s t : str) : encode s = encode t -> s = t.
Proof.
  revert t. induction s as [|c s IH]; intros [|d t] H.
  - reflexivity.
  - apply (f_equal utf8_head) in H. cbn [encode flat_map] in H.
    rewrite utf8_head_utf8 in H. discriminate.
  - apply (f_equal utf8_head) in H. cbn [encode flat_map] in H.
    rewrite utf8_head_utf8 in H. discriminate.
  - apply (f_equal utf8_head) in H. cbn [encode flat_map] in H.
    rewrite !utf8_head_utf8 in H. injection H as -> H. f_equal. exact (IH _ H).
Qed.

Lemma encode_injective_same :
  s_ "p@ss" = s_ "p@ss".
Proof. exact (encode_injective (s_ "p@ss") (s_ "p@ss") eq_refl). Defined.

(** ** What [main] writes *)

(** X14.  Whatever the column names and the values of the rows are, every
    line that [main] writes (in a process where the logger was not yet made)
    is a text followed by a newline in which each occurrence of a field of
    [PII_FIELDS] followed by ['='] is followed by ["***"] and then by a
    semicolon or the end of the text. *)
Theorem main_leaves_no_value (value : Type) (format_value : value -> str)
  (now : nat -> str) columns rows w :
  find_logger (s_ "user_data") w = None ->
  exists w' lines,
    main format_value now columns rows w = Some w'
    /\ stderr w' = stderr w ++ lines
    /\ forall entry,
         In entry lines ->
         exists line,
           entry = line ++ terminator
           /\ forall g u v,
                In g PII_FIELDS -> line = u ++ (g ++ ["="]) ++ v ->
                redacted_here REDACTION v.
Proof.
  intros Hnew. unfold main.
  destruct (get_logger_spec w) as (w1 & E & Hf & Hs). rewrite E.
  unfold user_data_handlers in Hf. rewrite Hnew in Hf. cbn [app] in Hf.
  destruct (log_rows_lines value format_value now columns rows 0 w1 Hf)
    as (w' & lines & Hlog & Hs' & Hlen & Hnth).
  exists w', lines. split; [exact Hlog|]. split; [congruence|].
  intros entry Hin. apply In_nth_error in Hin as [j Hj].
  assert (Hlt : j < length rows).
  { rewrite <- Hlen. apply nth_error_Some. congruence. }
  destruct (nth_error rows j) as [row|] eqn:Hrow;
    [| apply nth_error_None in Hrow; lia].
  destruct (Hnth j row Hrow) as (line & Hline & Hentry).
  exists line. split; [congruence|].
  destruct (RedactingFormatter_format_leaves_no_value_aux PII_FIELDS
              (info_record (now (0 + j)) (user_data format_value columns row))
              eq_refl eq_refl) as (line' & Hline' & Hocc).
  rewrite Hline in Hline'. injection Hline' as <-. exact Hocc.
Qed.

Lemma main_leaves_no_value_two :
  exists w' lines,
    main (fun v : str => v) (fun _ => s_ "2019-11-19 18:24:25,105")
      [s_ "name"; s_ "note"] [[s_ "Bob;x"; s_ "ssn=1 phone=2"]; [s_ "Al=le"; []]]
      {| loggers := []; stderr := [] |} = Some w'
    /\ stderr w' = [] ++ lines
    /\ forall entry,
         In entry lines ->
         exists line,
           entry = line ++ terminator
           /\ forall g u v,
                In g PII_FIELDS -> line = u ++ (g ++ ["="]) ++ v ->
                redacted_here REDACTION v.
Proof.
  exact (main_leaves_no_value str (fun v => v) (fun _ => s_ "2019-11-19 18:24:25,105")
           [s_ "name"; s_ "note"] [[s_ "Bob;x"; s_ "ssn=1 phone=2"]; [s_ "Al=le"; []]]
           {| loggers := []; stderr := [] |} eq_refl).
Defined.
